(** * Document indexing and retrieval engine of the realtime console

    Shallow embedding of [src/lib/documentProcessor.js] (the chunker, the
    keyword indexer, the relevance scorer and the ingestion pipeline), of
    [ragService.js] and of the [search_documents] tool handler of
    [src/pages/ConsolePage.tsx].

    Conventions of the embedding:
    - a JavaScript string is a [string]; one [ascii] stands for one code unit
      of a Latin-1 text (code units 0..255), [String.length] is [.length];
    - counters and array lengths are [nat]; numeric parameters that the
      caller chooses freely ([chunkSize], [overlap], [topK]) are [Z];
    - a relevance score is the exact rational [Q] of the quotient the code
      computes (numerator and denominator are array lengths);
    - the [Map] used as vector store is an association list in insertion
      order, which is the order a JavaScript [Map] iterates in;
    - code that can throw returns a [Completion]. *)

From Stdlib Require Import ZArith QArith List Bool Ascii String DecimalString Lia Lqa.
From Stdlib Require Import Sorted Permutation DecimalNat.
From stdpp Require Import base decidable list gmap strings.
Import ListNotations.

Local Open Scope string_scope.
Local Open Scope list_scope.

(** ** JavaScript string primitives *)

Module Js.

(** WhiteSpace and LineTerminator code units below 256: TAB, LF, VT, FF, CR,
    SPACE and NO-BREAK SPACE. This is the class [\s] of a regular expression
    and the class removed by [String.prototype.trim]. *)
Definition is_space (c : ascii) : bool :=
  let n := nat_of_ascii c in
  (((9 <=? n) && (n <=? 13)) || (n =? 32) || (n =? 160))%nat.

(** The class [\w]: ASCII letters, digits and underscore. *)
Definition is_word (c : ascii) : bool :=
  let n := nat_of_ascii c in
  (((48 <=? n) && (n <=? 57)) || ((65 <=? n) && (n <=? 90))
   || (n =? 95) || ((97 <=? n) && (n <=? 122)))%nat.

(** [toLowerCase] on one Latin-1 code unit: A-Z and the accented capitals
    0xC0-0xDE (the multiplication sign 0xD7 excepted) move up by 32. *)
Definition lower_char (c : ascii) : ascii :=
  let n := nat_of_ascii c in
  if (((65 <=? n) && (n <=? 90))
      || ((192 <=? n) && (n <=? 222) && negb (n =? 215)))%nat
  then ascii_of_nat (n + 32) else c.

Fixpoint toLowerCase (s : string) : string :=
  match s with
  | EmptyString => EmptyString
  | String c r => String (lower_char c) (toLowerCase r)
  end.

(** [s.replace(/[^\w\s]/g, '')] generalised to a class to keep. *)
Fixpoint keep_chars (keep : ascii -> bool) (s : string) : string :=
  match s with
  | EmptyString => EmptyString
  | String c r => if keep c then String c (keep_chars keep r) else keep_chars keep r
  end.

Fixpoint trimStart (s : string) : string :=
  match s with
  | EmptyString => EmptyString
  | String c r => if is_space c then trimStart r else s
  end.

Fixpoint trimEnd (s : string) : string :=
  match s with
  | EmptyString => EmptyString
  | String c r =>
      match trimEnd r with
      | EmptyString => if is_space c then EmptyString else String c EmptyString
      | t => String c t
      end
  end.

Definition trim (s : string) : string := trimEnd (trimStart s).

(** Some character of the text is not white space. *)
Fixpoint has_ink (s : string) : bool :=
  match s with
  | EmptyString => false
  | String c r => negb (is_space c) || has_ink r
  end.

(** [s.split(re)] for a regular expression [re = [class]+] that matches a
    maximal non-empty run of characters of [sep]. [cur] is the piece being
    read; [in_run] tells that the previous character was part of a
    separator run. The empty string gives one empty piece. *)
Fixpoint split_runs_aux (sep : ascii -> bool) (s : string)
    (cur : string) (in_run : bool) : list string :=
  match s with
  | EmptyString => [cur]
  | String c r =>
      if sep c
      then if in_run then split_runs_aux sep r cur true
           else cur :: split_runs_aux sep r EmptyString true
      else split_runs_aux sep r (cur +:+ String c EmptyString) false
  end.

Definition split_runs (sep : ascii -> bool) (s : string) : list string :=
  split_runs_aux sep s EmptyString false.

(** Splitting at every single character of the class [sep]: consecutive
    separators give empty pieces. *)
Fixpoint split_each_aux (sep : ascii -> bool) (s : string) (cur : string)
    : list string :=
  match s with
  | EmptyString => [cur]
  | String c r =>
      if sep c then cur :: split_each_aux sep r EmptyString
      else split_each_aux sep r (cur +:+ String c EmptyString)
  end.

Definition split_each (sep : ascii -> bool) (s : string) : list string :=
  split_each_aux sep s EmptyString.

(** [s.split(d)] for a separator [d] of one character, as in [s.split(' ')]. *)
Definition split_char (d : ascii) (s : string) : list string :=
  split_each (fun c => Ascii.eqb c d) s.

(** [arr.join(sep)] on an array of strings. *)
Fixpoint join (sep : string) (l : list string) : string :=
  match l with
  | [] => EmptyString
  | [x] => x
  | x :: r => x +:+ sep +:+ join sep r
  end.

(** A relative index of [slice], clamped into [0 .. len]. *)
Definition rel_index (len : nat) (i : Z) : nat :=
  if (i <? 0)%Z then Z.to_nat (Z.max (Z.of_nat len + i) 0)
  else Nat.min (Z.to_nat i) len.

(** [arr.slice(start, end)] with integral arguments. *)
Definition slice {A} (l : list A) (start stop : Z) : list A :=
  let k := rel_index (List.length l) start in
  let e := rel_index (List.length l) stop in
  firstn (e - k) (skipn k l).

(** [arr.slice(start)]. *)
Definition slice_from {A} (l : list A) (start : Z) : list A :=
  skipn (rel_index (List.length l) start) l.

(** [s.slice(0, n)] and [s.substring(0, n)] for [n >= 0] on a string. *)
Fixpoint str_take (n : nat) (s : string) : string :=
  match n, s with
  | O, _ => EmptyString
  | _, EmptyString => EmptyString
  | S k, String c r => String c (str_take k r)
  end.

(** [arr.sort(cmp)]. The sort of a JavaScript array is stable, and for a
    comparator that is a total preorder the stable sorted arrangement is
    unique; insertion from the right computes it: [x] stays in front of [y]
    when [cmp x y <= 0]. *)
Fixpoint sort_insert {A} (cmp : A -> A -> Q) (x : A) (l : list A) : list A :=
  match l with
  | [] => [x]
  | y :: r => if Qle_bool (cmp x y) 0 then x :: y :: r else y :: sort_insert cmp x r
  end.

Fixpoint sort {A} (cmp : A -> A -> Q) (l : list A) : list A :=
  match l with
  | [] => []
  | x :: r => sort_insert cmp x (sort cmp r)
  end.

(** The test [x > y] on numbers. *)
Definition Qgt_bool (x y : Q) : bool := negb (Qle_bool x y).

(** Truthiness of a string: the empty string is the only falsy one. *)
Definition truthy (s : string) : bool :=
  match s with
  | EmptyString => false
  | String _ _ => true
  end.

(** Template-literal rendering of a non-negative integer. *)
Definition show_nat (n : nat) : string := NilEmpty.string_of_uint (Nat.to_uint n).

(** A value that reaches a [catch] clause: an [Error] object with its
    message, or some other non-null value, whose [.message] reads
    [undefined]. *)
Inductive Thrown : Type :=
  | ErrorObj (message : string)
  | OtherValue.

(** [`${error.message}`]. *)
Definition message_text (e : Thrown) : string :=
  match e with
  | ErrorObj m => m
  | OtherValue => "undefined"
  end.

(** The outcome of evaluating code that may throw (or of awaiting a promise
    that may reject). *)
Inductive Completion (A : Type) : Type :=
  | Normal (a : A)
  | Throw (e : Thrown).
Arguments Normal {A} a.
Arguments Throw {A} e.

Definition bind {A B} (m : Completion A) (k : A -> Completion B) : Completion B :=
  match m with
  | Normal a => k a
  | Throw e => Throw e
  end.

(** [try { body } catch (error) { handler }]. *)
Definition try_catch {A} (body : Completion A) (handler : Thrown -> Completion A)
    : Completion A :=
  match body with
  | Normal a => Normal a
  | Throw e => handler e
  end.

(** Code that both mutates an object and may throw: a state [S] is threaded
    through, and it keeps the mutations made before a throw. *)
Record M (S A : Type) : Type := Eff { run : S -> S * Completion A }.
Arguments Eff {S A} _.
Arguments run {S A} _ _.

Definition ret {S A} (a : A) : M S A := Eff (fun s => (s, Normal a)).

Definition and_then {S A B} (m : M S A) (k : A -> M S B) : M S B :=
  Eff (fun s =>
    match run m s with
    | (s', Normal a) => run (k a) s'
    | (s', Throw e) => (s', Throw e)
    end).

(** [await] of an outcome that the environment decides. *)
Definition lift {S A} (c : Completion A) : M S A := Eff (fun s => (s, c)).

Definition get {S} : M S S := Eff (fun s => (s, Normal s)).

Definition modify {S} (f : S -> S) : M S unit := Eff (fun s => (f s, Normal tt)).

(** [try { body } catch (error) { handler }] around stateful code. *)
Definition try_catch_M {S A} (body : M S A) (handler : Thrown -> M S A) : M S A :=
  Eff (fun s =>
    match run body s with
    | (s', Normal a) => (s', Normal a)
    | (s', Throw e) => run (handler e) s'
    end).

(** [for (const x of xs) { body }]. *)
Fixpoint for_of {S A} (xs : list A) (body : A -> M S unit) : M S unit :=
  match xs with
  | [] => ret tt
  | x :: r => and_then (body x) (fun _ => for_of r body)
  end.

(** Running a method of the object held in a field, [get_field] and
    [set_field] reading and writing that field. *)
Definition zoom {S T A} (get_field : S -> T) (set_field : T -> S -> S) (m : M T A)
    : M S A :=
  Eff (fun s => let '(t', r) := run m (get_field s) in (set_field t' s, r)).

End Js.

(** [Completion] is a monad: stdpp's [x ← m; k] sequences two steps and
    stops at the first one that throws. *)
#[global] Instance completion_ret : MRet Js.Completion := @Js.Normal.
#[global] Instance completion_bind : MBind Js.Completion :=
  fun A B k m => Js.bind m k.
#[global] Instance eff_ret {S} : MRet (Js.M S) := fun A => Js.ret.
#[global] Instance eff_bind {S} : MBind (Js.M S) := fun A B k m => Js.and_then m k.

(** ** The environment of the engine *)

Module Env.

(** A [File] or [Blob]: its name ([undefined] for the blob of a response),
    what [file.text()] resolves to, and what the Word converter gives for
    [file.arrayBuffer()] (the [value] of [mammoth.extractRawText], or the
    error of the import, of the read or of the conversion). *)
Record File : Type := {
  file_name : option string;
  file_text : Js.Completion string;
  file_word : Js.Completion string
}.

(** The response of fetching one asset. *)
Record Response : Type := {
  ok : bool;
  blob : Js.Completion File
}.

(** What [response.json()] parses to. *)
Inductive Json : Type :=
  | JsonArray (items : list string)
  | JsonOther.

Record ManifestResponse : Type := {
  manifest_ok : bool;
  manifest_json : Js.Completion Json
}.

(** Everything the engine reads from outside: the manifest request, the
    request for the asset of a given name, and the clock while the document
    of a given name is processed. *)
Record World : Type := {
  fetch_manifest : Js.Completion ManifestResponse;
  fetch_asset : string -> Js.Completion Response;
  date_now : string -> string
}.

End Env.

(** ** The document processor *)

Module DocumentProcessor.

(** *** Data model *)

(** The [metadata] object built by [processDocument]. *)
Record Metadata : Type := {
  fileName : string;
  fileType : string;
  processedAt : string
}.

(** [{ ...metadata, pageNum, chunkIndex }]. *)
Record ChunkMetadata : Type := {
  base : Metadata;
  pageNum : nat;
  chunkIndex : nat
}.

Record Chunk : Type := {
  id : string;
  content : string;
  metadata : ChunkMetadata
}.

(** A value of the vector store. *)
Record Entry : Type := {
  chunk : Chunk;
  keywords : list string;
  embedding : list Q
}.

(** [this.vectorStore]: keys in order of first insertion. *)
Definition VectorStore : Type := list (string * Entry).

(** [Map.prototype.set]: an existing key keeps its place and takes the new
    value, a new key goes to the end. *)
Fixpoint map_set (k : string) (v : Entry) (m : VectorStore) : VectorStore :=
  match m with
  | [] => [(k, v)]
  | (k', v') :: r =>
      if String.eqb k' k then (k, v) :: r else (k', v') :: map_set k v r
  end.

(** [Map.prototype.get]. *)
Fixpoint map_get (k : string) (m : VectorStore) : option Entry :=
  match m with
  | [] => None
  | (k', v') :: r => if String.eqb k' k then Some v' else map_get k r
  end.

(** An element of [this.documents]. *)
Record DocRecord : Type := {
  doc_fileName : string;
  doc_chunks : nat;
  doc_content : string
}.

(** The fields of a [DocumentProcessor] instance. *)
Record State : Type := {
  vectorStore : VectorStore;
  documents : list DocRecord;
  isInitialized : bool
}.

(** The state the constructor builds. *)
Definition new : State :=
  {| vectorStore := []; documents := []; isInitialized := false |}.

(** *** createChunks *)

(** The characters of the class [[.!?]]. *)
Definition is_terminator (c : ascii) : bool :=
  Ascii.eqb c "." || Ascii.eqb c "!" || Ascii.eqb c "?".

(** [content.split(/[.!?]+/).filter(s => s.trim().length > 0)]. *)
Definition sentences_of (content : string) : list string :=
  List.filter (fun s => (0 <? String.length (Js.trim s))%nat)
    (Js.split_runs is_terminator content).

(** The local variables of the loop of [createChunks]. *)
Record Loop : Type := {
  chunks : list Chunk;
  currentChunk : string;
  page : nat
}.

(** The object pushed on [chunks], where [n] is [chunks.length + 1]. *)
Definition make_chunk (md : Metadata) (n : nat) (buffer : string) (pg : nat) : Chunk :=
  {| id := fileName md +:+ "_chunk_" +:+ Js.show_nat n;
     content := Js.trim buffer;
     metadata := {| base := md; pageNum := pg; chunkIndex := n |} |}.

(** [words.slice(-Math.floor(overlap / 5))] for [words = buffer.split(' ')]. *)
Definition overlap_words (overlap : Z) (buffer : string) : list string :=
  Js.slice_from (Js.split_char " " buffer) (- (overlap / 5))%Z.

(** The branch of the loop body that appends or emits. *)
Definition accumulate (md : Metadata) (chunkSize overlap : Z) (st : Loop)
    (sentence : string) : Loop :=
  let cur := currentChunk st in
  if (chunkSize <? Z.of_nat (String.length cur + String.length sentence))%Z
     && (0 <? String.length cur)%nat
  then {| chunks := chunks st
                    ++ [make_chunk md (List.length (chunks st) + 1) cur (page st)];
          currentChunk := Js.join " " (overlap_words overlap cur) +:+ " " +:+ sentence;
          page := page st |}
  else {| chunks := chunks st;
          currentChunk := cur +:+ (if Js.truthy cur then " " else "") +:+ sentence;
          page := page st |}.

(** The page detection that ends the loop body. *)
Definition detect_page (st : Loop) : Loop :=
  if (300 <? List.length (Js.split_char " " (currentChunk st)))%nat
  then {| chunks := chunks st; currentChunk := currentChunk st; page := page st + 1 |}
  else st.

(** One iteration of the loop, on the element [sentences[i]]. *)
Definition loop_body (md : Metadata) (chunkSize overlap : Z) (st : Loop)
    (raw : string) : Loop :=
  detect_page (accumulate md chunkSize overlap st (Js.trim raw)).

Definition loop_init : Loop := {| chunks := []; currentChunk := ""; page := 1 |}.

(** The state of the locals when the loop over [sentences] ends. *)
Definition run_loop (md : Metadata) (chunkSize overlap : Z) (sentences : list string)
    : Loop :=
  fold_left (loop_body md chunkSize overlap) sentences loop_init.

(** The final chunk. *)
Definition finish (md : Metadata) (st : Loop) : list Chunk :=
  if Js.truthy (Js.trim (currentChunk st))
  then chunks st
       ++ [make_chunk md (List.length (chunks st) + 1) (currentChunk st) (page st)]
  else chunks st.

Definition createChunks (content : string) (md : Metadata) (chunkSize overlap : Z)
    : list Chunk :=
  finish md (run_loop md chunkSize overlap (sentences_of content)).

(** The default values of the parameters [chunkSize] and [overlap]. *)
Definition default_chunkSize : Z := 500.
Definition default_overlap : Z := 100.

(** *** extractKeywords and simpleEmbedding *)

Definition stopWords : gset string :=
  list_to_set
    ["the"; "a"; "an"; "and"; "or"; "but"; "in"; "on"; "at"; "to"; "for"; "of";
     "with"; "by"; "is"; "are"; "was"; "were"; "be"; "been"; "have"; "has";
     "had"; "do"; "does"; "did"; "will"; "would"; "could"; "should"; "may";
     "might"; "can"; "this"; "that"; "these"; "those"; "i"; "you"; "he"; "she";
     "it"; "we"; "they"; "me"; "him"; "her"; "us"; "them"].

(** [[...new Set(words)]]: the words in order of first occurrence, [seen]
    being the set built so far. *)
Fixpoint uniq_from (seen : gset string) (words : list string) : list string :=
  match words with
  | [] => []
  | w :: r =>
      if bool_decide (w ∈ seen) then uniq_from seen r
      else w :: uniq_from ({[w]} ∪ seen) r
  end.

(** The array [words] of [extractKeywords], before deduplication. *)
Definition keyword_tokens (text : string) : list string :=
  List.filter
    (fun word => (2 <? String.length word)%nat && negb (bool_decide (word ∈ stopWords)))
    (Js.split_runs Js.is_space
       (Js.keep_chars (fun c => Js.is_word c || Js.is_space c) (Js.toLowerCase text))).

Definition extractKeywords (text : string) : list string :=
  uniq_from ∅ (keyword_tokens text).

(** An array of 1536 numbers: the first ones are a tenth of the lengths of
    the whitespace-separated words, the others stay 0. *)
Definition simpleEmbedding (text : string) : list Q :=
  let words := firstn 1536 (Js.split_runs Js.is_space (Js.toLowerCase text)) in
  List.map (fun w => inject_Z (Z.of_nat (String.length w)) / 10)%Q words
  ++ repeat 0%Q (1536 - List.length words).

(** *** addToVectorStore *)

Definition index_entry (c : Chunk) : Entry :=
  {| chunk := c;
     keywords := extractKeywords (content c);
     embedding := simpleEmbedding (content c) |}.

Definition addToVectorStore (cs : list Chunk) (store : VectorStore) : VectorStore :=
  fold_left (fun m c => map_set (id c) (index_entry c) m) cs store.

(** *** calculateRelevance and searchChunks *)

(** [chunkKeywords.includes(keyword)]. *)
Definition includes (l : list string) (k : string) : bool := bool_decide (k ∈ l).

Definition calculateRelevance (queryKeywords chunkKeywords : list string) : Q :=
  let intersection := List.filter (includes chunkKeywords) queryKeywords in
  (inject_Z (Z.of_nat (List.length intersection))
   / inject_Z (Z.of_nat (Nat.max (List.length queryKeywords) 1)))%Q.

(** [{ ...entry.chunk, relevance, source }]. *)
Record SearchResult : Type := {
  res_chunk : Chunk;
  relevance : Q;
  source : string
}.

Definition source_of (c : Chunk) : string :=
  fileName (base (metadata c)) +:+ " (Page " +:+ Js.show_nat (pageNum (metadata c)) +:+ ")".

(** The array [results] when the loop over the store ends. *)
Definition scored (queryKeywords : list string) (store : VectorStore) : list SearchResult :=
  flat_map
    (fun kv : string * Entry =>
       let relevance := calculateRelevance queryKeywords (keywords (snd kv)) in
       if Js.Qgt_bool relevance 0
       then [{| res_chunk := chunk (snd kv);
                relevance := relevance;
                source := source_of (chunk (snd kv)) |}]
       else [])
    store.

(** The comparator [(a, b) => b.relevance - a.relevance]. *)
Definition by_relevance_desc (a b : SearchResult) : Q := (relevance b - relevance a)%Q.

(** The value of [results.sort(...)]: every result, best first. *)
Definition ranked (store : VectorStore) (query : string) : list SearchResult :=
  Js.sort by_relevance_desc (scored (extractKeywords query) store).

Definition searchChunks (store : VectorStore) (query : string) (topK : Z)
    : list SearchResult :=
  Js.slice (ranked store query) 0 topK.

Definition default_topK : Z := 5.

(** *** getStats *)

Record DocStat : Type := { stat_fileName : string; stat_chunks : nat }.

Record Stats : Type := {
  totalDocuments : nat;
  totalChunks : nat;
  stat_documents : list DocStat
}.

Definition stats_of (this : State) : Stats :=
  {| totalDocuments := List.length (documents this);
     totalChunks := List.length (vectorStore this);
     stat_documents :=
       List.map (fun doc => {| stat_fileName := doc_fileName doc;
                               stat_chunks := doc_chunks doc |})
         (documents this) |}.

Definition getStats : Js.M State Stats :=
  this ← Js.get; mret (stats_of this).

(** *** processDocument *)

(** The argument [{ fileName, content }] of [processDocument]. *)
Record Doc : Type := { in_fileName : string; in_content : string }.

(** [fileName.split('.').pop()]. *)
Definition extension (name : string) : string :=
  List.last (Js.split_char "." name) "".

(** The mutation [processDocument] makes for a document with text: [now] is
    the reading of the clock, [new Date().toISOString()]. *)
Definition record_document (now : string) (doc : Doc) (this : State) : State :=
  let md := {| fileName := in_fileName doc;
               fileType := extension (in_fileName doc);
               processedAt := now |} in
  let cs := createChunks (in_content doc) md default_chunkSize default_overlap in
  {| vectorStore := addToVectorStore cs (vectorStore this);
     documents :=
       documents this
       ++ [{| doc_fileName := in_fileName doc;
              doc_chunks := List.length cs;
              doc_content := Js.str_take 200 (in_content doc) +:+ "..." |}];
     isInitialized := isInitialized this |}.

Definition processDocument (now : string) (doc : Doc) : Js.M State unit :=
  if Js.truthy (Js.trim (in_content doc))
  then Js.modify (record_document now doc)
  else mret tt.

(** *** Text extraction *)

Section Ingestion.
Import Env.
Variable w : World.

Definition extractWordText (file : File) : Js.Completion string :=
  Js.try_catch (file_word file)
    (fun error =>
       Js.Normal ("[Error extracting text from Word document: "
                  +:+ Js.message_text error +:+ "]")).

Definition extractPDFText (file : File) : Js.Completion string :=
  Js.try_catch
    (Js.Normal ("[PDF content from " +:+ default "undefined" (file_name file)
                +:+ " - PDF processing will be implemented soon]"))
    (fun error =>
       Js.Normal ("[Error extracting PDF text: " +:+ Js.message_text error +:+ "]")).

Definition extractTextFile (file : File) : Js.Completion string := file_text file.

(** The result is [None] for [null]. *)
Definition extractTextFromFile (file : File) (name : string)
    : Js.Completion (option string) :=
  let fileType := Js.toLowerCase (extension name) in
  Js.try_catch
    (if String.eqb fileType "pdf" then text ← extractPDFText file; Js.Normal (Some text)
     else if String.eqb fileType "docx" || String.eqb fileType "doc"
          then text ← extractWordText file; Js.Normal (Some text)
     else if String.eqb fileType "txt" then text ← extractTextFile file; Js.Normal (Some text)
     else Js.Normal None)
    (fun error => Js.Normal None).

(** *** loadAssetsDocuments and initialize *)

Definition discoverFilesInAssets : Js.Completion (list string) :=
  Js.try_catch
    (response ← fetch_manifest w;
     if negb (manifest_ok response) then Js.Normal []
     else fileList ← manifest_json response;
          match fileList with
          | JsonArray items => Js.Normal items
          | JsonOther => Js.Normal []
          end)
    (fun error => Js.Normal []).

(** [loadAssetsDocuments] works on the processor and on its local array
    [documents]. *)
Record LoadFrame : Type := {
  this_ : State;
  local_documents : list Doc
}.

Definition clear_index (f : LoadFrame) : LoadFrame :=
  {| this_ := {| vectorStore := []; documents := [];
                 isInitialized := isInitialized (this_ f) |};
     local_documents := local_documents f |}.

Definition push_document (d : Doc) (f : LoadFrame) : LoadFrame :=
  {| this_ := this_ f; local_documents := local_documents f ++ [d] |}.

(** The body of the loop over the discovered file names. The test on the
    extracted text is [content && content.trim().length > 0]. *)
Definition load_file (name : string) : Js.M LoadFrame unit :=
  Js.try_catch_M
    (response ← Js.lift (fetch_asset w name);
     if ok response
     then file ← Js.lift (blob response);
          content ← Js.lift (extractTextFromFile file name);
          match content with
          | Some text =>
              if Js.truthy text && (0 <? String.length (Js.trim text))%nat
              then Js.modify (push_document {| in_fileName := name; in_content := text |})
              else mret tt
          | None => mret tt
          end
     else mret tt)
    (fun error => mret tt).

Definition loadAssetsDocuments : Js.M State (list Doc) :=
  Js.Eff (fun this =>
    let body : Js.M LoadFrame unit :=
      Js.try_catch_M
        (Js.modify clear_index;;
         discoveredFiles ← Js.lift discoverFilesInAssets;
         Js.for_of discoveredFiles load_file)
        (fun error => mret tt) in
    let '(f, _) := Js.run body {| this_ := this; local_documents := [] |} in
    (this_ f, Js.Normal (local_documents f))).

Definition set_initialized (this : State) : State :=
  {| vectorStore := vectorStore this; documents := documents this;
     isInitialized := true |}.

Definition initialize : Js.M State Stats :=
  this ← Js.get;
  if isInitialized this then getStats
  else
    Js.try_catch_M
      (assetsDocuments ← loadAssetsDocuments;
       (if (0 <? List.length assetsDocuments)%nat
        then Js.for_of assetsDocuments
               (fun doc => processDocument (date_now w (in_fileName doc)) doc)
        else mret tt);;
       Js.modify set_initialized;;
       getStats)
      (fun error => Js.modify set_initialized;; getStats).

(** *** processUploadedFiles *)

(** The body of the loop over the uploaded files; a file is given with its
    name, [file.name]. *)
Definition upload_file (nf : string * File) : Js.M State unit :=
  Js.try_catch_M
    (content ← Js.lift (extractTextFromFile (snd nf) (fst nf));
     match content with
     | Some c =>
         if Js.truthy c
         then processDocument (date_now w (fst nf))
                {| in_fileName := fst nf; in_content := c |}
         else mret tt
     | None => mret tt
     end)
    (fun error => mret tt).

Definition processUploadedFiles (files : list (string * File)) : Js.M State Stats :=
  Js.for_of files upload_file;;
  getStats.

End Ingestion.

End DocumentProcessor.

(** ** The RAG service *)

Module RAGService.
Import Env.

(** The fields of the singleton [ragService]. *)
Record State : Type := {
  documentProcessor : DocumentProcessor.State;
  isInitialized : bool;
  stats : option DocumentProcessor.Stats
}.

Definition new : State :=
  {| documentProcessor := DocumentProcessor.new; isInitialized := false; stats := None |}.

(** The [metadata] of a result of [searchDocuments]. *)
Record ResultMetadata : Type := {
  fileName : string;
  pageNum : nat;
  chunkIndex : nat
}.

Record Result : Type := {
  content : string;
  source : string;
  relevance : Q;
  metadata : ResultMetadata
}.

(** Calling a method of [this.documentProcessor]. *)
Definition on_processor {A} (m : Js.M DocumentProcessor.State A) : Js.M State A :=
  Js.zoom documentProcessor
    (fun p this => {| documentProcessor := p; isInitialized := isInitialized this;
                      stats := stats this |})
    m.

Definition set_ready (this : State) : State :=
  {| documentProcessor := documentProcessor this;
     isInitialized := true;
     stats := Some (DocumentProcessor.stats_of (documentProcessor this)) |}.

Section Service.
Variable w : World.

Definition initialize : Js.M State (option DocumentProcessor.Stats) :=
  this ← Js.get;
  if isInitialized this then mret (stats this)
  else
    Js.try_catch_M
      (on_processor (DocumentProcessor.initialize w);;
       Js.modify set_ready;;
       this ← Js.get;
       mret (stats this))
      (fun error => Js.lift (Js.Throw error)).

Definition to_result (r : DocumentProcessor.SearchResult) : Result :=
  let c := DocumentProcessor.res_chunk r in
  {| content := DocumentProcessor.content c;
     source := DocumentProcessor.source r;
     relevance := DocumentProcessor.relevance r;
     metadata :=
       {| fileName := DocumentProcessor.fileName
                        (DocumentProcessor.base (DocumentProcessor.metadata c));
          pageNum := DocumentProcessor.pageNum (DocumentProcessor.metadata c);
          chunkIndex := DocumentProcessor.chunkIndex (DocumentProcessor.metadata c) |} |}.

Definition searchDocuments (query : string) (topK : Z) : Js.M State (list Result) :=
  this ← Js.get;
  (if negb (isInitialized this) then initialize;; mret tt else mret tt);;
  this ← Js.get;
  let results :=
    DocumentProcessor.searchChunks
      (DocumentProcessor.vectorStore (documentProcessor this)) query topK in
  mret (List.map to_result results).

End Service.

End RAGService.

(** ** The [search_documents] tool of the console *)

Module Tool.

(** The object the tool handler returns; [status] is its tag. *)
Inductive Response : Type :=
  | NoResults (message query : string)
  | Success (message query : string) (total_results : nat)
      (document_content : string) (sources : list string) (summary : string)
  | Error (error message : string).

Definition status (r : Response) : string :=
  match r with
  | NoResults _ _ => "no_results"
  | Success _ _ _ _ _ _ => "success"
  | Error _ _ => "error"
  end.

Definition newline : string := String (ascii_of_nat 10) EmptyString.

(** [results.map((result, index) => ...)] of the handler. *)
Fixpoint format_from (index : nat) (results : list RAGService.Result) : list string :=
  match results with
  | [] => []
  | result :: r =>
      ("Result " +:+ Js.show_nat (index + 1) +:+ " (" +:+ RAGService.source result
       +:+ "):" +:+ newline +:+ RAGService.content result)
      :: format_from (index + 1) r
  end.

(** [text.length > limit ? text.slice(0, limit) + '...' : text]. *)
Definition truncate (limit : nat) (text : string) : string :=
  if (limit <? String.length text)%nat then Js.str_take limit text +:+ "..." else text.

(** [error instanceof Error ? error.message : 'Unknown error']. *)
Definition error_message (error : Js.Thrown) : string :=
  match error with
  | Js.ErrorObj m => m
  | Js.OtherValue => "Unknown error"
  end.

Section Handler.
Context {S : Type}.
(** The method [ragService.searchDocuments] the handler awaits. *)
Variable searchDocuments : string -> Z -> Js.M S (list RAGService.Result).

(** The handler given to [client.addTool]; [top_k] is [None] when the caller
    leaves it out, and then takes the default 5. *)
Definition handler (query : string) (top_k : option Z) : Js.M S Response :=
  let top_k := default 5%Z top_k in
  Js.try_catch_M
    (results ← searchDocuments query top_k;
     if (List.length results =? 0)%nat
     then mret (NoResults "No relevant documents found for your query." query)
     else
       let formattedResults := Js.join (newline +:+ newline) (format_from 0 results) in
       let summary := truncate 400 formattedResults in
       let document_content := truncate 2000 formattedResults in
       mret (Success
               ("Found " +:+ Js.show_nat (List.length results)
                +:+ " relevant document chunks for your query.")
               query (List.length results) document_content
               (List.map RAGService.source results) summary))
    (fun error => mret (Error "Failed to search documents" (error_message error))).

End Handler.

(** The tool as the console registers it, on the singleton service. *)
Definition search_documents (w : Env.World) (query : string) (top_k : option Z)
    : Js.M RAGService.State Response :=
  handler (RAGService.searchDocuments w) query top_k.

End Tool.


(** ** The chunker as the specification words it

    A second definition of the chunker, written after the sentences of the
    specification, to compare with [DocumentProcessor.createChunks]. *)

Module ChunkerSpec.

(** Splitting on sentence-terminating punctuation: every [.], [!] or [?]
    ends a fragment. *)
Definition fragments (content : string) : list string :=
  Js.split_each DocumentProcessor.is_terminator content.

(** Fragments that are empty after trimming are discarded; a sentence is a
    trimmed fragment. *)
Definition sentences (content : string) : list string :=
  List.map Js.trim
    (List.filter (fun s => negb (String.eqb (Js.trim s) "")) (fragments content)).

(** The last [n] words of a text, words being separated by one space. *)
Definition last_words (n : nat) (text : string) : list string :=
  let words := Js.split_char " " text in
  skipn (List.length words - n) words.

(** The buffers emitted, in order: [buffer] is the running buffer and [n]
    the number of overlap words. *)
Fixpoint emitted (chunkSize : Z) (n : nat) (buffer : string) (todo : list string)
    : list string :=
  match todo with
  | [] => if String.eqb buffer "" then [] else [buffer]
  | sentence :: rest =>
      if negb (String.eqb buffer "")
         && (chunkSize <? Z.of_nat (String.length buffer + String.length sentence))%Z
      then buffer
           :: emitted chunkSize n
                (Js.join " " (last_words n buffer) +:+ " " +:+ sentence) rest
      else emitted chunkSize n
             (if String.eqb buffer "" then sentence else buffer +:+ " " +:+ sentence)
             rest
  end.

(** The contents of the chunks: each emitted buffer, trimmed. The number of
    overlap words is [floor(overlap / 5)]. *)
Definition chunk_contents (content : string) (chunkSize overlap : Z) : list string :=
  List.map Js.trim
    (emitted chunkSize (Z.to_nat (overlap / 5)) "" (sentences content)).

End ChunkerSpec.

(** ** Vocabulary of the properties *)

Module Reach.
Import DocumentProcessor.

(** The vector stores an engine can hold: the constructor and
    [vectorStore.clear()] give the empty one, and the only other mutation is
    [addToVectorStore]. *)
Inductive indexed : VectorStore -> Prop :=
  | indexed_empty : indexed []
  | indexed_add (cs : list Chunk) (store : VectorStore) :
      indexed store -> indexed (addToVectorStore cs store).

(** What holds of every such store: the keys are pairwise distinct, and the
    value under a key is the index entry of a chunk with that id. *)
Definition store_ok (store : VectorStore) : Prop :=
  NoDup (List.map fst store)
  /\ Forall (fun kv => kv = (id (chunk (snd kv)), index_entry (chunk (snd kv)))) store.

(** The number of indexed chunks whose score for the query keywords is
    strictly positive. *)
Definition positive_count (queryKeywords : list string) (store : VectorStore) : nat :=
  List.length
    (List.filter
       (fun kv => Js.Qgt_bool (calculateRelevance queryKeywords (keywords (snd kv))) 0)
       store).

(** The number of entries of the store under a key. *)
Definition entries_for (key : string) (store : VectorStore) : nat :=
  List.length (List.filter (fun kv => String.eqb (fst kv) key) store).

(** [a] may stand before [b] in a ranking. *)
Definition before (a b : SearchResult) : Prop := (relevance b <= relevance a)%Q.

(** What the loop keeps true of its locals. *)
Record loop_inv (md : Metadata) (st : Loop) : Prop := {
  inv_buffer : currentChunk st = "" \/ Js.has_ink (currentChunk st) = true;
  inv_page : 1 <= page st;
  inv_chunks : forall i c, chunks st !! i = Some c ->
      Js.has_ink (content c) = true
      /\ id c = fileName md +:+ "_chunk_" +:+ Js.show_nat (i + 1)
      /\ chunkIndex (metadata c) = i + 1
      /\ pageNum (metadata c) <= page st;
  inv_sorted : forall i j ci cj, i <= j ->
      chunks st !! i = Some ci -> chunks st !! j = Some cj ->
      pageNum (metadata ci) <= pageNum (metadata cj)
}.

End Reach.

(** ** Vocabulary of the ingestion properties *)

Module Batch.
Import Env DocumentProcessor.

(** The text an extraction yields for a file, by the extension of its name:
    [None] stands for no text ([null]). A failure of the plain-text read
    gives no text; a failure of the Word conversion gives the bracketed
    error text that [extractWordText] builds. *)
Definition extraction (file : File) (name : string) : option string :=
  let fileType := Js.toLowerCase (extension name) in
  if String.eqb fileType "pdf"
  then Some ("[PDF content from " +:+ default "undefined" (file_name file)
             +:+ " - PDF processing will be implemented soon]")
  else if String.eqb fileType "docx" || String.eqb fileType "doc"
  then match file_word file with
       | Js.Normal text => Some text
       | Js.Throw error =>
           Some ("[Error extracting text from Word document: "
                 +:+ Js.message_text error +:+ "]")
       end
  else if String.eqb fileType "txt"
  then match file_text file with
       | Js.Normal text => Some text
       | Js.Throw _ => None
       end
  else None.

(** The extractor of the format of the file throws. *)
Definition extraction_throws (file : File) (name : string) : bool :=
  let fileType := Js.toLowerCase (extension name) in
  if String.eqb fileType "docx" || String.eqb fileType "doc"
  then match file_word file with Js.Throw _ => true | Js.Normal _ => false end
  else if String.eqb fileType "txt"
  then match file_text file with Js.Throw _ => true | Js.Normal _ => false end
  else false.

(** The file names of the manifest; none when the manifest cannot be read. *)
Definition discovered (w : World) : list string :=
  match fetch_manifest w with
  | Js.Normal response =>
      if manifest_ok response
      then match manifest_json response with
           | Js.Normal (JsonArray items) => items
           | _ => []
           end
      else []
  | Js.Throw _ => []
  end.

(** The document a discovered file name contributes to the batch: none when
    the request fails or is refused, when the body cannot be read, and when
    the extraction yields no text or a text that is empty after trimming. *)
Definition kept (w : World) (name : string) : list Doc :=
  match fetch_asset w name with
  | Js.Normal response =>
      if ok response
      then match blob response with
           | Js.Normal file =>
               match extraction file name with
               | Some text =>
                   if Js.has_ink text
                   then [{| in_fileName := name; in_content := text |}]
                   else []
               | None => []
               end
           | Js.Throw _ => []
           end
      else []
  | Js.Throw _ => []
  end.

(** The document an uploaded file contributes to the batch. *)
Definition kept_upload (nf : string * File) : list Doc :=
  match extraction (snd nf) (fst nf) with
  | Some text =>
      if Js.has_ink text
      then [{| in_fileName := fst nf; in_content := text |}]
      else []
  | None => []
  end.

(** The documents of a batch that are not skipped, in order. *)
Definition surviving (w : World) : list Doc := flat_map (kept w) (discovered w).

(** The processor after the documents [docs] are processed one by one. *)
Definition ingest (w : World) (docs : list Doc) (this : State) : State :=
  fold_left (fun st doc => record_document (date_now w (in_fileName doc)) doc st)
    docs this.

(** The processor with an empty index and no document. *)
Definition cleared (this : State) : State :=
  {| vectorStore := []; documents := []; isInitialized := isInitialized this |}.

End Batch.

(** ** Sample inputs *)

Module Sample.
Import Env DocumentProcessor.

Definition policy : Doc :=
  {| in_fileName := "policy.txt";
     in_content := "Reset your password. Use the portal." |}.

Definition policy_metadata (now : string) : Metadata :=
  {| fileName := "policy.txt"; fileType := "txt"; processedAt := now |}.

(** A successful response with the given body. *)
Definition body (file : File) : Js.Completion Response :=
  Js.Normal {| ok := true; blob := Js.Normal file |}.

Definition failure : Js.Completion string := Js.Throw (Js.ErrorObj "corrupt file").

(** A file no extractor can read, and a file with a short text. *)
Definition broken_file : File :=
  {| file_name := None; file_text := failure; file_word := failure |}.

Definition notes_file : File :=
  {| file_name := None; file_text := Js.Normal "Hello world. Bye";
     file_word := failure |}.

(** A manifest of two assets: the Word conversion of [broken.docx] throws,
    [notes.txt] reads well. *)
Definition word_fails : World :=
  {| fetch_manifest :=
       Js.Normal {| manifest_ok := true;
                    manifest_json := Js.Normal (JsonArray ["broken.docx"; "notes.txt"]) |};
     fetch_asset := fun name =>
       if String.eqb name "broken.docx" then body broken_file else body notes_file;
     date_now := fun _ => "2025-01-01T00:00:00.000Z" |}.

(** A manifest of two assets: the read of [broken.txt] throws, [notes.txt]
    reads well. *)
Definition text_fails : World :=
  {| fetch_manifest :=
       Js.Normal {| manifest_ok := true;
                    manifest_json := Js.Normal (JsonArray ["broken.txt"; "notes.txt"]) |};
     fetch_asset := fun name =>
       if String.eqb name "broken.txt" then body broken_file else body notes_file;
     date_now := fun _ => "2025-01-01T00:00:00.000Z" |}.

(** A world with no asset at all. *)
Definition no_assets : World :=
  {| fetch_manifest :=
       Js.Normal {| manifest_ok := true; manifest_json := Js.Normal (JsonArray []) |};
     fetch_asset := fun _ => Js.Throw (Js.ErrorObj "not found");
     date_now := fun _ => "2025-01-01T00:00:00.000Z" |}.

(** A chunk and a later version of it under the same id. *)
Definition chunk_v1 : Chunk :=
  {| id := "policy.txt_chunk_1"; content := "Reset your password";
     metadata := {| base := policy_metadata "t1"; pageNum := 1; chunkIndex := 1 |} |}.

Definition chunk_v2 : Chunk :=
  {| id := "policy.txt_chunk_1"; content := "Use the portal";
     metadata := {| base := policy_metadata "t2"; pageNum := 1; chunkIndex := 1 |} |}.

(** The index that holds the first version only. *)
Definition index : VectorStore := addToVectorStore [chunk_v1] [].

(** A manual of four chunks, indexed in the order of the text: for the query
    "password portal" the first and the last hold one of the two keywords,
    the second none, the third both. *)
Definition manual_metadata : Metadata :=
  {| fileName := "manual.txt"; fileType := "txt"; processedAt := "t0" |}.

Definition manual_chunk (n : nat) (text : string) : Chunk :=
  {| id := "manual.txt_chunk_" +:+ Js.show_nat n; content := text;
     metadata := {| base := manual_metadata; pageNum := 1; chunkIndex := n |} |}.

Definition library : VectorStore :=
  addToVectorStore
    [manual_chunk 1 "Open the portal";
     manual_chunk 2 "Call the office";
     manual_chunk 3 "Reset your password in the portal";
     manual_chunk 4 "Change the password"] [].

End Sample.

(** ** Vocabulary of the tool properties *)

Module Boundary.

(** The answer of the tool for an outcome of the search it awaits. *)
Definition answer (query : string) (outcome : Js.Completion (list RAGService.Result))
    : Tool.Response :=
  match outcome with
  | Js.Normal [] => Tool.NoResults "No relevant documents found for your query." query
  | Js.Normal results =>
      let formatted :=
        Js.join (Tool.newline +:+ Tool.newline) (Tool.format_from 0 results) in
      Tool.Success
        ("Found " +:+ Js.show_nat (List.length results)
         +:+ " relevant document chunks for your query.")
        query (List.length results) (Tool.truncate 2000 formatted)
        (List.map RAGService.source results) (Tool.truncate 400 formatted)
  | Js.Throw e => Tool.Error "Failed to search documents" (Tool.error_message e)
  end.

End Boundary.

(** ** Vocabulary of the further properties *)

Module Text.

(** Every character of the text is in the class [p]. *)
Fixpoint all_chars (p : ascii -> bool) (s : string) : bool :=
  match s with
  | EmptyString => true
  | String c r => p c && all_chars p r
  end.

(** The characters a keyword is made of: digits, the underscore and the
    letters that [toLowerCase] leaves as they are. *)
Definition is_keyword_char (c : ascii) : bool :=
  Js.is_word c && Ascii.eqb (Js.lower_char c) c.

(** The text [t] occurs in the text [s]. *)
Definition occurs_in (t s : string) : Prop :=
  exists before after, s = before +:+ t +:+ after.

End Text.

(** ** Vocabulary of the properties of documents *)

Module Retag.
Import DocumentProcessor.

(** The chunk [c] as it would be made for the metadata [md]: the id takes
    the file name of [md] and the number of [c]; the content, the page and
    the number stay. *)
Definition carry (md : Metadata) (c : Chunk) : Chunk :=
  {| id := fileName md +:+ "_chunk_" +:+ Js.show_nat (chunkIndex (metadata c));
     content := content c;
     metadata := {| base := md; pageNum := pageNum (metadata c);
                    chunkIndex := chunkIndex (metadata c) |} |}.

End Retag.

(** ** The queries of the RAG service *)

Module RAGQueries.
Import RAGService.

(** [getStats]: [this.stats || { totalDocuments: 0, totalChunks: 0,
    documents: [] }]. *)
Definition getStats (this : State) : DocumentProcessor.Stats :=
  default {| DocumentProcessor.totalDocuments := 0;
             DocumentProcessor.totalChunks := 0;
             DocumentProcessor.stat_documents := [] |}
    (stats this).

(** [isReady]: [this.isInitialized && this.stats.totalChunks > 0]. Reading
    [totalChunks] of a [stats] that is still [null] throws the TypeError
    [null_read] of the engine. *)
Definition isReady (null_read : Js.Thrown) (this : State) : Js.Completion bool :=
  if isInitialized this
  then match stats this with
       | Some s => Js.Normal (0 <? DocumentProcessor.totalChunks s)%nat
       | None => Js.Throw null_read
       end
  else Js.Normal false.

(** The states the singleton service goes through: it is created by the
    constructor and changed by its methods [initialize] and
    [searchDocuments] only. *)
Inductive service_state : State -> Prop :=
  | service_new : service_state new
  | service_initialize (w : Env.World) (s : State) :
      service_state s -> service_state (fst (Js.run (initialize w) s))
  | service_search (w : Env.World) (query : string) (topK : Z) (s : State) :
      service_state s -> service_state (fst (Js.run (searchDocuments w query topK) s)).

End RAGQueries.

(** ** The document uploader *)

Module DocumentUploader.
Import Env.

(** The filter of [handleFiles] on a file name: the lower-cased text after
    the last dot is one of the four supported types. *)
Definition accepted (name : string) : bool :=
  bool_decide (Js.toLowerCase (DocumentProcessor.extension name)
               ∈ ["pdf"; "docx"; "doc"; "txt"]).

(** [handleFiles]: the accepted files join the pending ones. A file is
    given with its name. *)
Definition handleFiles (pending files : list (string * File)) : list (string * File) :=
  pending ++ List.filter (fun nf => accepted (fst nf)) files.

(** What [processFiles] leaves: the pending files, the statistics passed
    to [onDocumentsProcessed] if it is called, and whether the alert of the
    [catch] clause is shown. *)
Record Outcome : Type := {
  pending_after : list (string * File);
  reported : option DocumentProcessor.Stats;
  alerted : bool
}.

(** [processFiles]: nothing happens without pending files; otherwise the
    module of the processor is imported ([load_module] is the outcome of the
    dynamic import), a new [DocumentProcessor] processes the pending files,
    its statistics go to the callback [onDocumentsProcessed] and the pending
    list is emptied; an error on the way shows an alert. *)
Definition processFiles (w : World) (load_module : Js.Completion unit)
    (onDocumentsProcessed : DocumentProcessor.Stats -> Js.Completion unit)
    (pending : list (string * File)) : Outcome :=
  if (List.length pending =? 0)%nat
  then {| pending_after := pending; reported := None; alerted := false |}
  else
    match load_module with
    | Js.Throw _ => {| pending_after := pending; reported := None; alerted := true |}
    | Js.Normal _ =>
        match snd (Js.run (DocumentProcessor.processUploadedFiles w pending)
                     DocumentProcessor.new) with
        | Js.Throw _ =>
            {| pending_after := pending; reported := None; alerted := true |}
        | Js.Normal stats =>
            match onDocumentsProcessed stats with
            | Js.Normal _ =>
                {| pending_after := []; reported := Some stats; alerted := false |}
            | Js.Throw _ =>
                {| pending_after := pending; reported := Some stats; alerted := true |}
            end
        end
    end.

End DocumentUploader.

(** * Properties *)

(** ** The primitives on small inputs *)

Section Checks.
Import Js DocumentProcessor.

Example split_at_punctuation_runs :
  split_runs is_terminator "One. Two?! Three" = ["One"; " Two"; " Three"]
  /\ split_runs is_terminator "..a." = [""; "a"; ""]
  /\ split_runs is_terminator "" = [""].
Proof. repeat split; reflexivity. Qed.

Example split_at_single_spaces :
  split_char " " "a  b " = ["a"; ""; "b"; ""] /\ split_char " " "" = [""].
Proof. split; reflexivity. Qed.

Example trim_both_ends :
  trim "  a b  " = "a b" /\ trim "   " = "" /\ trim "" = "".
Proof. repeat split; reflexivity. Qed.

Example slice_last_words :
  slice_from ["a"; "b"; "c"; "d"] (-2) = ["c"; "d"]
  /\ slice_from ["a"; "b"] (-20) = ["a"; "b"]
  /\ slice_from ["a"; "b"; "c"; "d"] (-0) = ["a"; "b"; "c"; "d"].
Proof. repeat split; reflexivity. Qed.

Example slice_first_results :
  slice [1; 2; 3; 4] 0 2 = [1; 2]
  /\ slice [1; 2; 3; 4] 0 9 = [1; 2; 3; 4]
  /\ slice [1; 2; 3; 4] 0 0 = []
  /\ slice [1; 2; 3; 4] 0 (-1) = [1; 2; 3]
  /\ slice [1; 2; 3; 4] 0 (-9) = [].
Proof. repeat split; reflexivity. Qed.

Example join_words :
  join " " ["a"; "b"; "c"] = "a b c" /\ join " " [""; "b"] = " b" /\ join " " [] = "".
Proof. repeat split; reflexivity. Qed.

Example keywords_of_a_sentence :
  extractKeywords "The Password, the PASSWORD of it: go to portal-2!"
  = ["password"; "portal2"].
Proof. vm_compute. reflexivity. Qed.

Example file_extension :
  extension "archive.tar.GZ" = "GZ" /\ extension "README" = "README"
  /\ extension "notes." = "".
Proof. repeat split; reflexivity. Qed.

End Checks.

(** ** Facts about the string primitives *)

Section StringFacts.
Import Js.

Lemma truthy_false (s : string) : truthy s = false <-> s = "".
Proof. destruct s; simpl; split; congruence. Qed.

Lemma truthy_eqb (s : string) : truthy s = negb (String.eqb s "").
Proof. now destruct s. Qed.

Lemma truthy_length (s : string) : truthy s = (0 <? String.length s)%nat.
Proof. now destruct s. Qed.

Lemma has_ink_app (a b : string) : has_ink (a +:+ b) = has_ink a || has_ink b.
Proof.
  induction a as [|c a IH]; simpl; [reflexivity|].
  rewrite IH. now rewrite orb_assoc.
Qed.

Lemma has_ink_trimStart (s : string) : has_ink (trimStart s) = has_ink s.
Proof.
  induction s as [|c r IH]; simpl; [reflexivity|].
  destruct (is_space c) eqn:E; simpl; [exact IH | now rewrite E].
Qed.

Lemma trimEnd_empty (s : string) : trimEnd s = "" <-> has_ink s = false.
Proof.
  induction s as [|c r IH]; simpl; [tauto|].
  destruct (trimEnd r) eqn:Er.
  - assert (Hr : has_ink r = false) by (apply IH; reflexivity).
    rewrite Hr, orb_false_r.
    destruct (is_space c); simpl; split; congruence.
  - assert (Hr : has_ink r = true).
    { destruct (has_ink r) eqn:Hi; [reflexivity|].
      assert (String a s = "") by (apply IH; reflexivity). discriminate. }
    rewrite Hr, orb_true_r. split; discriminate.
Qed.

Lemma has_ink_trimEnd (s : string) : has_ink (trimEnd s) = has_ink s.
Proof.
  induction s as [|c r IH]; simpl; [reflexivity|].
  destruct (trimEnd r) eqn:Er.
  - assert (Hr : has_ink r = false) by (apply trimEnd_empty; exact Er).
    rewrite Hr, orb_false_r.
    destruct (is_space c) eqn:E; simpl; [reflexivity|].
    now rewrite E.
  - simpl in *. now rewrite IH.
Qed.

Lemma has_ink_trim (s : string) : has_ink (trim s) = has_ink s.
Proof. unfold trim. now rewrite has_ink_trimEnd, has_ink_trimStart. Qed.

Lemma truthy_has_ink (s : string) : has_ink s = true -> truthy s = true.
Proof. destruct s; simpl; [discriminate | reflexivity]. Qed.

Lemma truthy_trim (s : string) : truthy (trim s) = has_ink s.
Proof.
  destruct (has_ink s) eqn:E.
  - apply truthy_has_ink. now rewrite has_ink_trim.
  - apply truthy_false. unfold trim. apply trimEnd_empty.
    now rewrite has_ink_trimStart.
Qed.

Lemma trim_length_pos (s : string) : (0 <? String.length (trim s))%nat = has_ink s.
Proof. rewrite <- truthy_length. apply truthy_trim. Qed.

End StringFacts.

(** ** Facts about the chunker *)

Section ChunkerFacts.
Import Js DocumentProcessor Reach.

(** Every piece of a split is made of characters of the text or of the
    piece that was being read. *)
Lemma split_runs_aux_ink (sep : ascii -> bool) (s cur : string) (b : bool) (piece : string) :
  piece ∈ split_runs_aux sep s cur b -> has_ink piece = true ->
  has_ink cur || has_ink s = true.
Proof.
  revert cur b. induction s as [|c r IH]; intros cur b Hin Hink; simpl in *.
  - apply list_elem_of_singleton in Hin. subst. now rewrite orb_false_r.
  - destruct (sep c).
    + destruct b.
      * apply IH in Hin; [|exact Hink]. apply orb_true_iff in Hin.
        destruct Hin as [->| ->]; [reflexivity | now rewrite !orb_true_r].
      * apply elem_of_cons in Hin. destruct Hin as [->|Hin].
        -- now rewrite Hink.
        -- apply IH in Hin; [|exact Hink]. simpl in Hin.
           rewrite Hin. now rewrite !orb_true_r.
    + apply IH in Hin; [|exact Hink].
      rewrite has_ink_app in Hin. simpl in Hin.
      rewrite orb_false_r in Hin.
      now rewrite orb_assoc.
Qed.

Lemma sentences_of_ink (content raw : string) :
  raw ∈ sentences_of content -> has_ink raw = true /\ has_ink content = true.
Proof.
  unfold sentences_of. intros Hin.
  apply list_elem_of_In, filter_In in Hin. destruct Hin as [Hin Hpos].
  rewrite trim_length_pos in Hpos. split; [exact Hpos|].
  apply list_elem_of_In in Hin.
  apply (split_runs_aux_ink _ _ _ _ _ Hin) in Hpos. exact Hpos.
Qed.

Lemma sentences_of_blank (content : string) :
  has_ink content = false -> sentences_of content = [].
Proof.
  intros Hblank. destruct (sentences_of content) as [|raw l] eqn:E; [reflexivity|].
  assert (Hin : raw ∈ sentences_of content) by (rewrite E; left).
  apply sentences_of_ink in Hin. destruct Hin as [_ Hin]. congruence.
Qed.

Lemma loop_inv_init (md : Metadata) : loop_inv md loop_init.
Proof.
  split; simpl; [now left | lia | |]; intros; rewrite lookup_nil in *; discriminate.
Qed.

(** Pushing the buffer keeps the invariant, whatever the next buffer is. *)
Lemma loop_inv_push (md : Metadata) (st : Loop) (next : string) :
  loop_inv md st -> has_ink (currentChunk st) = true -> has_ink next = true ->
  loop_inv md
    {| chunks := chunks st
                 ++ [make_chunk md (List.length (chunks st) + 1) (currentChunk st) (page st)];
       currentChunk := next; page := page st |}.
Proof.
  intros [Hb Hp Hc Hs] Hcur Hnext. split; simpl.
  - now right.
  - exact Hp.
  - intros i c Hi. apply lookup_snoc_Some in Hi.
    destruct Hi as [[_ Hi]|[-> <-]]; [now apply Hc|].
    simpl. rewrite has_ink_trim. auto.
  - intros i j ci cj Hij Hi Hj.
    apply lookup_snoc_Some in Hi. apply lookup_snoc_Some in Hj.
    destruct Hi as [[Hli Hi]|[-> <-]], Hj as [[Hlj Hj]|[-> <-]]; simpl.
    + exact (Hs i j ci cj Hij Hi Hj).
    + destruct (Hc _ _ Hi) as (_ & _ & _ & Hle). exact Hle.
    + lia.
    + lia.
Qed.

Lemma loop_inv_accumulate md chunkSize overlap st sentence :
  loop_inv md st -> has_ink sentence = true ->
  loop_inv md (accumulate md chunkSize overlap st sentence)
  /\ has_ink (currentChunk (accumulate md chunkSize overlap st sentence)) = true.
Proof.
  intros Hinv Hsent. unfold accumulate.
  destruct (_ && _) eqn:Hcond.
  - apply andb_true_iff in Hcond. destruct Hcond as [_ Hlen].
    assert (Hcur : has_ink (currentChunk st) = true).
    { destruct (inv_buffer _ _ Hinv) as [E|E]; [|exact E].
      rewrite E in Hlen. discriminate. }
    assert (Hnext : has_ink (join " " (overlap_words overlap (currentChunk st))
                             +:+ " " +:+ sentence) = true).
    { rewrite !has_ink_app, Hsent. now rewrite !orb_true_r. }
    split; [|exact Hnext]. now apply loop_inv_push.
  - assert (Hnext : has_ink (currentChunk st
                             +:+ (if truthy (currentChunk st) then " " else "")
                             +:+ sentence) = true).
    { rewrite !has_ink_app, Hsent. now rewrite !orb_true_r. }
    split; [|exact Hnext].
    destruct Hinv as [Hb Hp Hc Hs]. split; simpl; auto.
Qed.

Lemma loop_inv_detect md st : loop_inv md st -> loop_inv md (detect_page st).
Proof.
  intros [Hb Hp Hc Hs]. unfold detect_page.
  destruct (_ <? _)%nat; [|split; assumption].
  split; simpl; [exact Hb | lia | | exact Hs].
  intros i c Hi. apply Hc in Hi. intuition lia.
Qed.

Lemma detect_page_buffer st : currentChunk (detect_page st) = currentChunk st.
Proof. unfold detect_page. now destruct (_ <? _)%nat. Qed.

Lemma loop_inv_body md chunkSize overlap st raw :
  loop_inv md st -> has_ink raw = true ->
  loop_inv md (loop_body md chunkSize overlap st raw)
  /\ has_ink (currentChunk (loop_body md chunkSize overlap st raw)) = true.
Proof.
  intros Hinv Hraw. unfold loop_body.
  destruct (loop_inv_accumulate md chunkSize overlap st (trim raw) Hinv) as [H1 H2].
  { now rewrite has_ink_trim. }
  split; [now apply loop_inv_detect | now rewrite detect_page_buffer].
Qed.

Lemma loop_inv_fold md chunkSize overlap sentences st :
  loop_inv md st -> (forall raw, raw ∈ sentences -> has_ink raw = true) ->
  loop_inv md (fold_left (loop_body md chunkSize overlap) sentences st).
Proof.
  revert st. induction sentences as [|raw l IH]; intros st Hinv Hall; simpl.
  - exact Hinv.
  - apply IH.
    + apply loop_inv_body; [exact Hinv | apply Hall; left].
    + intros r Hr. apply Hall. now right.
Qed.

Lemma loop_inv_run md chunkSize overlap content :
  loop_inv md (run_loop md chunkSize overlap (sentences_of content)).
Proof.
  apply loop_inv_fold; [apply loop_inv_init|].
  intros raw Hraw. now apply sentences_of_ink in Hraw.
Qed.

(** The chunks [finish] returns are those of a state that satisfies the
    invariant. *)
Lemma finish_inv md st :
  loop_inv md st ->
  exists st', loop_inv md st' /\ finish md st = chunks st'.
Proof.
  intros Hinv. unfold finish. destruct (truthy _) eqn:Ht.
  - rewrite truthy_trim in Ht.
    eexists {| chunks := _; currentChunk := currentChunk st; page := page st |}.
    split; [|reflexivity]. now apply loop_inv_push.
  - now exists st.
Qed.

End ChunkerFacts.

(** ** The chunks of a document *)

Section ChunkProperties.
Import Js DocumentProcessor Reach.

(** C8. Every chunk that [createChunks] emits has a content that is not
    empty after trimming; the chunk at position [i] (counting from 0), that
    is the [(i+1)]-th chunk, has the id [<fileName>_chunk_<i+1>] and the
    [chunkIndex] [i + 1]; a content with no character other than white space
    (the empty content included) gives no chunk at all. *)
Theorem createChunks_well_formed (text : string) (md : Metadata) (chunkSize overlap : Z) :
  (forall i c, createChunks text md chunkSize overlap !! i = Some c ->
     (0 < String.length (trim (content c)))%nat
     /\ id c = fileName md +:+ "_chunk_" +:+ show_nat (i + 1)
     /\ chunkIndex (metadata c) = i + 1)
  /\ (has_ink text = false -> createChunks text md chunkSize overlap = []).
Proof.
  split.
  - intros i c Hi. unfold createChunks in Hi.
    destruct (finish_inv md _ (loop_inv_run md chunkSize overlap text))
      as (st' & Hinv & Heq).
    rewrite Heq in Hi.
    destruct (inv_chunks _ _ Hinv _ _ Hi) as (Hink & Hid & Hidx & _).
    repeat split; [|exact Hid|exact Hidx].
    apply Nat.ltb_lt. rewrite trim_length_pos. exact Hink.
  - intros Hblank. unfold createChunks.
    rewrite (sentences_of_blank _ Hblank). reflexivity.
Qed.

(** C9. The page counter of a document starts at 1; one pass of the loop
    adds 1 to it exactly when the buffer it leaves has more than 300 words,
    and leaves it alone otherwise, so that it is never reset nor decreased;
    hence the [pageNum] of the chunks of a document never decreases along
    the sequence of chunks. *)
Theorem pageNum_monotone (text : string) (md : Metadata) (chunkSize overlap : Z) :
  page loop_init = 1
  /\ (forall st raw,
        page (loop_body md chunkSize overlap st raw)
        = page st
          + (if (300 <? List.length
                   (split_char " "
                      (currentChunk (loop_body md chunkSize overlap st raw))))%nat
             then 1 else 0))
  /\ (forall i j ci cj, i <= j ->
        createChunks text md chunkSize overlap !! i = Some ci ->
        createChunks text md chunkSize overlap !! j = Some cj ->
        pageNum (metadata ci) <= pageNum (metadata cj)).
Proof.
  split; [reflexivity|]. split.
  - intros st raw. unfold loop_body. rewrite detect_page_buffer.
    unfold detect_page.
    set (st1 := accumulate md chunkSize overlap st (trim raw)).
    assert (Hp : page st1 = page st).
    { unfold st1, accumulate. now destruct (_ && _). }
    destruct (_ <? _)%nat; simpl; lia.
  - intros i j ci cj Hij Hi Hj. unfold createChunks in *.
    destruct (finish_inv md _ (loop_inv_run md chunkSize overlap text))
      as (st' & Hinv & Heq).
    rewrite Heq in Hi, Hj.
    exact (inv_sorted _ _ Hinv i j ci cj Hij Hi Hj).
Qed.

End ChunkProperties.

(** ** Facts about the vector store *)

Section StoreFacts.
Import Js DocumentProcessor Reach.

Lemma map_set_keys (k : string) (v : Entry) (m : VectorStore) :
  List.map fst (map_set k v m)
  = if bool_decide (k ∈ List.map fst m) then List.map fst m else List.map fst m ++ [k].
Proof.
  induction m as [|[k' v'] r IH]; simpl.
  - reflexivity.
  - destruct (String.eqb_spec k' k) as [->|Hne]; simpl.
    + rewrite bool_decide_eq_true_2 by left. reflexivity.
    + rewrite IH. destruct (bool_decide (k ∈ List.map fst r)) eqn:E.
      * apply bool_decide_eq_true_1 in E.
        rewrite bool_decide_eq_true_2 by now right. reflexivity.
      * apply bool_decide_eq_false_1 in E.
        rewrite bool_decide_eq_false_2; [reflexivity|].
        intros H. apply elem_of_cons in H. destruct H; congruence.
Qed.

Lemma map_get_Some_key (k : string) (m : VectorStore) :
  is_Some (map_get k m) <-> k ∈ List.map fst m.
Proof.
  induction m as [|[k' v'] r IH]; simpl.
  - split; [intros [? ?]; discriminate | intros H; inversion H].
  - destruct (String.eqb_spec k' k) as [->|Hne].
    + split; [intros _; left | intros _; eauto].
    + rewrite IH. rewrite elem_of_cons. split; [tauto | intros [?|?]; congruence].
Qed.

Lemma map_get_set_eq (k : string) (v : Entry) (m : VectorStore) :
  map_get k (map_set k v m) = Some v.
Proof.
  induction m as [|[k' v'] r IH]; simpl.
  - now rewrite String.eqb_refl.
  - destruct (String.eqb_spec k' k) as [->|Hne]; simpl.
    + now rewrite String.eqb_refl.
    + destruct (String.eqb_spec k' k); [congruence | exact IH].
Qed.

Lemma map_get_set_ne (k k0 : string) (v : Entry) (m : VectorStore) :
  k <> k0 -> map_get k0 (map_set k v m) = map_get k0 m.
Proof.
  intros Hne. induction m as [|[k' v'] r IH]; simpl.
  - destruct (String.eqb_spec k k0); [congruence | reflexivity].
  - destruct (String.eqb_spec k' k) as [->|Hne']; simpl.
    + destruct (String.eqb_spec k k0); [congruence | reflexivity].
    + destruct (String.eqb_spec k' k0); [reflexivity | exact IH].
Qed.

Lemma map_set_length_present (k : string) (v : Entry) (m : VectorStore) :
  k ∈ List.map fst m -> List.length (map_set k v m) = List.length m.
Proof.
  intros Hin.
  rewrite <- (length_map fst (map_set k v m)), map_set_keys.
  rewrite bool_decide_eq_true_2 by exact Hin. apply length_map.
Qed.

Lemma map_set_elem (k : string) (v : Entry) (m : VectorStore) (kv : string * Entry) :
  kv ∈ map_set k v m -> kv = (k, v) \/ kv ∈ m.
Proof.
  induction m as [|[k' v'] r IH]; simpl; intros H.
  - apply list_elem_of_singleton in H. now left.
  - destruct (String.eqb k' k).
    + apply elem_of_cons in H. destruct H; [now left | right; now right].
    + apply elem_of_cons in H. destruct H as [->|H]; [right; left|].
      destruct (IH H); [now left | right; now right].
Qed.

Lemma entries_for_count (key : string) (m : VectorStore) :
  NoDup (List.map fst m) -> key ∈ List.map fst m -> entries_for key m = 1.
Proof.
  unfold entries_for. induction m as [|[k' v'] r IH]; simpl; intros Hnd Hin.
  - inversion Hin.
  - apply NoDup_cons in Hnd. destruct Hnd as [Hfresh Hnd].
    destruct (String.eqb_spec k' key) as [->|Hne]; simpl.
    + f_equal. clear IH Hin Hnd.
      induction r as [|[k2 v2] r IH]; simpl; [reflexivity|].
      destruct (String.eqb_spec k2 key) as [->|Hne].
      * exfalso. apply Hfresh. simpl. left.
      * apply IH. intros H. apply Hfresh. simpl. now right.
    + apply IH; [exact Hnd|].
      apply elem_of_cons in Hin. destruct Hin; congruence.
Qed.

Lemma store_ok_set (c : Chunk) (store : VectorStore) :
  store_ok store -> store_ok (map_set (id c) (index_entry c) store).
Proof.
  intros [Hnd Hall]. split.
  - rewrite map_set_keys. destruct (bool_decide _) eqn:E; [exact Hnd|].
    apply bool_decide_eq_false_1 in E.
    apply NoDup_app. split; [exact Hnd|]. split.
    + intros x Hx Hx'. apply list_elem_of_singleton in Hx'. congruence.
    + apply NoDup_singleton.
  - apply Forall_forall. intros kv Hkv.
    apply map_set_elem in Hkv. destruct Hkv as [->|Hkv]; [reflexivity|].
    rewrite Forall_forall in Hall. now apply Hall.
Qed.

Lemma store_ok_add (cs : list Chunk) (store : VectorStore) :
  store_ok store -> store_ok (addToVectorStore cs store).
Proof.
  unfold addToVectorStore. revert store.
  induction cs as [|c cs IH]; intros store Hok; simpl; [exact Hok|].
  apply IH. now apply store_ok_set.
Qed.

Lemma indexed_ok (store : VectorStore) : indexed store -> store_ok store.
Proof.
  induction 1 as [|cs store _ IH].
  - split; [apply NoDup_nil_2 | apply Forall_nil_2].
  - now apply store_ok_add.
Qed.

End StoreFacts.

(** ** Re-indexing a chunk *)

Section Reindexing.
Import Js DocumentProcessor Reach.

(** C7. Indexing a chunk whose id already has an entry overwrites that
    entry: the store keeps its size, holds exactly one entry for the id, and
    that entry carries the chunk just indexed, with its content and the
    keywords extracted from it. *)
Theorem reindex_overwrites (store : VectorStore) (c : Chunk) :
  indexed store ->
  is_Some (map_get (id c) store) ->
  List.length (addToVectorStore [c] store) = List.length store
  /\ entries_for (id c) (addToVectorStore [c] store) = 1
  /\ exists e, map_get (id c) (addToVectorStore [c] store) = Some e
       /\ chunk e = c
       /\ content (chunk e) = content c
       /\ keywords e = extractKeywords (content c).
Proof.
  intros Hidx Hsome. apply map_get_Some_key in Hsome.
  assert (Hok : store_ok (addToVectorStore [c] store)).
  { apply indexed_ok. now constructor. }
  unfold addToVectorStore in *. simpl in *.
  split; [now apply map_set_length_present|]. split.
  - apply entries_for_count; [apply Hok|].
    apply map_get_Some_key. rewrite map_get_set_eq. eauto.
  - exists (index_entry c). rewrite map_get_set_eq. auto.
Qed.

End Reindexing.

(** ** Facts about scores, sorting and slicing *)

Section SearchFacts.
Import Js DocumentProcessor Reach.

Lemma Qgt_bool_spec (x y : Q) : Qgt_bool x y = true <-> (y < x)%Q.
Proof.
  unfold Qgt_bool. rewrite negb_true_iff.
  destruct (Qle_bool x y) eqn:E.
  - apply Qle_bool_iff in E. split; [discriminate | intros H; lra].
  - split; [intros _ | reflexivity].
    apply Qnot_le_lt. intros H. apply Qle_bool_iff in H. congruence.
Qed.

Lemma pos_of_nat_Z (m : nat) : m <> 0 -> Z.pos (Pos.of_nat m) = Z.of_nat m.
Proof.
  intros Hm. rewrite <- positive_nat_Z. now rewrite Nat2Pos.id.
Qed.

(** The quotient of two array lengths as a fraction. *)
Lemma length_quotient (n m : nat) :
  m <> 0 ->
  (inject_Z (Z.of_nat n) / inject_Z (Z.of_nat m) == Z.of_nat n # Pos.of_nat m)%Q.
Proof.
  intros Hm. rewrite Qmake_Qdiv.
  now rewrite pos_of_nat_Z.
Qed.

Lemma relevance_fraction (q c : list string) :
  (calculateRelevance q c
   == Z.of_nat (List.length (List.filter (includes c) q))
      # Pos.of_nat (Nat.max (List.length q) 1))%Q.
Proof. unfold calculateRelevance. apply length_quotient. lia. Qed.

Lemma relevance_positive (q c : list string) :
  (0 < calculateRelevance q c)%Q
  <-> 0 < List.length (List.filter (includes c) q).
Proof.
  rewrite relevance_fraction. unfold Qlt. simpl. lia.
Qed.

Lemma relevance_range (q c : list string) :
  (0 <= calculateRelevance q c)%Q /\ (calculateRelevance q c <= 1)%Q.
Proof.
  rewrite relevance_fraction. unfold Qle. simpl.
  pose proof (filter_length_le (includes c) q) as Hle.
  split; [lia|].
  rewrite Z.mul_1_r, Z.mul_1_l.
  rewrite pos_of_nat_Z by lia. lia.
Qed.

(** The results before sorting: one per entry with a positive score, each
    with the chunk of its entry, that score and the source text. *)
Lemma scored_elem (q : list string) (store : VectorStore) (r : SearchResult) :
  r ∈ scored q store <->
  exists kv, kv ∈ store
    /\ (0 < calculateRelevance q (keywords (snd kv)))%Q
    /\ r = {| res_chunk := chunk (snd kv);
              relevance := calculateRelevance q (keywords (snd kv));
              source := source_of (chunk (snd kv)) |}.
Proof.
  unfold scored. rewrite list_elem_of_In, in_flat_map. split.
  - intros (kv & Hkv & Hr). exists kv. apply list_elem_of_In in Hkv.
    destruct (Qgt_bool _ 0) eqn:E; [|inversion Hr].
    apply Qgt_bool_spec in E. destruct Hr as [<-|[]]. auto.
  - intros (kv & Hkv & Hpos & ->). exists kv. apply list_elem_of_In in Hkv.
    split; [exact Hkv|]. apply Qgt_bool_spec in Hpos. rewrite Hpos. now left.
Qed.

Lemma scored_length (q : list string) (store : VectorStore) :
  List.length (scored q store) = positive_count q store.
Proof.
  unfold scored, positive_count.
  induction store as [|kv r IH]; simpl; [reflexivity|].
  rewrite length_app, IH. now destruct (Qgt_bool _ 0).
Qed.

Lemma sort_insert_perm {A} (cmp : A -> A -> Q) (x : A) (l : list A) :
  Permutation (sort_insert cmp x l) (x :: l).
Proof.
  induction l as [|y r IH]; simpl; [reflexivity|].
  destruct (Qle_bool _ 0); [reflexivity|].
  rewrite IH. apply perm_swap.
Qed.

Lemma sort_perm {A} (cmp : A -> A -> Q) (l : list A) : Permutation (sort cmp l) l.
Proof.
  induction l as [|x r IH]; simpl; [reflexivity|].
  rewrite sort_insert_perm. now constructor.
Qed.

Lemma sort_insert_sorted (x : SearchResult) (l : list SearchResult) :
  StronglySorted before l -> StronglySorted before (sort_insert by_relevance_desc x l).
Proof.
  induction 1 as [|y r Hr IH Hy]; simpl.
  - repeat constructor.
  - unfold by_relevance_desc at 1. destruct (Qle_bool _ 0) eqn:E.
    + apply Qle_bool_iff in E.
      assert (Hxy : before x y) by (unfold before; lra).
      constructor; [now constructor|].
      constructor; [exact Hxy|].
      rewrite Forall_forall in Hy |- *. intros z Hz.
      specialize (Hy z Hz). unfold before in *. lra.
    + assert (Hyx : before y x).
      { unfold before. destruct (Qlt_le_dec (relevance y) (relevance x)) as [Hlt|Hle];
          [|exact Hle].
        assert (Hc : Qle_bool (relevance y - relevance x) 0 = true)
          by (apply Qle_bool_iff; lra).
        congruence. }
      constructor; [exact IH|].
      rewrite Forall_forall in Hy |- *. intros z Hz.
      rewrite sort_insert_perm in Hz.
      apply elem_of_cons in Hz. destruct Hz as [->|Hz]; [exact Hyx|].
      now apply Hy.
Qed.

Lemma sort_sorted (l : list SearchResult) : StronglySorted before (sort by_relevance_desc l).
Proof.
  induction l as [|x r IH]; simpl; [constructor | now apply sort_insert_sorted].
Qed.

Lemma sorted_lookup (l : list SearchResult) (i j : nat) (a b : SearchResult) :
  StronglySorted before l -> i <= j -> l !! i = Some a -> l !! j = Some b -> before a b.
Proof.
  intros Hs. revert i j. induction Hs as [|x r Hr IH Hx]; intros i j Hij Hi Hj.
  - rewrite lookup_nil in Hi. discriminate.
  - destruct i as [|i], j as [|j]; simpl in *; try lia.
    + injection Hi as <-. injection Hj as <-. unfold before. lra.
    + injection Hi as <-. rewrite Forall_forall in Hx. apply Hx.
      eapply list_elem_of_lookup_2. exact Hj.
    + apply (IH i j); [lia | assumption | assumption].
Qed.

Lemma ranked_sorted (store : VectorStore) (query : string) (i j : nat) (a b : SearchResult) :
  i <= j -> ranked store query !! i = Some a -> ranked store query !! j = Some b ->
  (relevance b <= relevance a)%Q.
Proof. intros. eapply sorted_lookup; eauto. apply sort_sorted. Qed.

Lemma ranked_perm (store : VectorStore) (query : string) :
  Permutation (ranked store query) (scored (extractKeywords query) store).
Proof. apply sort_perm. Qed.

Lemma ranked_length (store : VectorStore) (query : string) :
  List.length (ranked store query) = positive_count (extractKeywords query) store.
Proof. rewrite (Permutation_length (ranked_perm store query)). apply scored_length. Qed.

(** [slice(0, k)] keeps a prefix: the first [k] elements for [k >= 0], all
    but the last [-k] for [k < 0]. *)
Lemma slice_prefix {A} (l : list A) (k : Z) :
  slice l 0 k
  = if (k <? 0)%Z then firstn (List.length l - Z.to_nat (- k)) l
    else firstn (Z.to_nat k) l.
Proof.
  unfold slice, rel_index. simpl. rewrite Nat.sub_0_r.
  destruct (k <? 0)%Z eqn:E.
  - f_equal. apply Z.ltb_lt in E. lia.
  - destruct (Nat.le_ge_cases (Z.to_nat k) (List.length l)) as [H|H].
    + now rewrite Nat.min_l.
    + rewrite Nat.min_r by exact H. now rewrite !firstn_all2.
Qed.

End SearchFacts.

(** ** Searching *)

Section SearchProperties.
Import Js DocumentProcessor Reach.

Lemma searchChunks_take (store : VectorStore) (query : string) (K : Z) :
  (0 <= K)%Z -> searchChunks store query K = take (Z.to_nat K) (ranked store query).
Proof.
  intros HK. unfold searchChunks. rewrite slice_prefix.
  destruct (K <? 0)%Z eqn:E; [apply Z.ltb_lt in E; lia | reflexivity].
Qed.

Lemma ranked_elem (store : VectorStore) (query : string) (r : SearchResult) :
  r ∈ ranked store query ->
  exists kv, kv ∈ store
    /\ (0 < calculateRelevance (extractKeywords query) (keywords (snd kv)))%Q
    /\ r = {| res_chunk := chunk (snd kv);
              relevance := calculateRelevance (extractKeywords query) (keywords (snd kv));
              source := source_of (chunk (snd kv)) |}.
Proof. rewrite ranked_perm. apply scored_elem. Qed.

(** C1. For every query and every [topK = K >= 1], [searchChunks] returns
    only indexed chunks with a strictly positive relevance, each with its
    score, in non-increasing order of relevance, and as many of them as the
    smaller of [K] and the number of indexed chunks with a positive score. *)
Theorem searchChunks_top_ranked (store : VectorStore) (query : string) (K : Z) :
  (1 <= K)%Z ->
  (forall r, r ∈ searchChunks store query K ->
     (0 < relevance r)%Q
     /\ exists kv, kv ∈ store /\ res_chunk r = chunk (snd kv)
          /\ relevance r = calculateRelevance (extractKeywords query) (keywords (snd kv)))
  /\ (forall i j a b, i <= j ->
        searchChunks store query K !! i = Some a ->
        searchChunks store query K !! j = Some b ->
        (relevance b <= relevance a)%Q)
  /\ Z.of_nat (List.length (searchChunks store query K))
     = Z.min K (Z.of_nat (positive_count (extractKeywords query) store)).
Proof.
  intros HK. rewrite searchChunks_take by lia. repeat split.
  - apply subseteq_take in H. apply ranked_elem in H.
    destruct H as (kv & _ & Hpos & ->). exact Hpos.
  - apply subseteq_take in H. apply ranked_elem in H.
    destruct H as (kv & Hkv & _ & ->). exists kv. auto.
  - intros i j a b Hij Hi Hj.
    apply lookup_take_Some in Hi. apply lookup_take_Some in Hj.
    eapply ranked_sorted; [exact Hij | apply Hi | apply Hj].
  - rewrite length_take, ranked_length. lia.
Qed.

(** C10. With [topK = 0] the result of [searchChunks] is empty, and with a
    negative [topK] it is the ranking of all the results with a positive
    score without its last [|topK|] elements; no minimum of 1 is imposed on
    [topK]. The ranking holds exactly the indexed chunks with a positive
    score, each with its score, in non-increasing order of relevance, and it
    is the list whose first [K'] elements a call with [topK = K' >= 0]
    returns; so the results of a negative [topK] are in that order too. *)
Theorem searchChunks_nonpositive_topK (store : VectorStore) (query : string) (K : Z) :
  (K <= 0)%Z ->
  (K = 0%Z -> searchChunks store query K = [])
  /\ ((K < 0)%Z ->
      searchChunks store query K
      = take (List.length (ranked store query) - Z.to_nat (- K)) (ranked store query)
      /\ List.length (searchChunks store query K)
         = positive_count (extractKeywords query) store - Z.to_nat (- K))
  /\ Permutation (ranked store query) (scored (extractKeywords query) store)
  /\ (forall i j a b, i <= j ->
        ranked store query !! i = Some a -> ranked store query !! j = Some b ->
        (relevance b <= relevance a)%Q)
  /\ (forall r, r ∈ ranked store query ->
        (0 < relevance r)%Q
        /\ exists kv, kv ∈ store /\ res_chunk r = chunk (snd kv)
             /\ relevance r = calculateRelevance (extractKeywords query) (keywords (snd kv)))
  /\ (forall K', (0 <= K')%Z ->
        searchChunks store query K' = take (Z.to_nat K') (ranked store query))
  /\ (forall i j a b, i <= j ->
        searchChunks store query K !! i = Some a ->
        searchChunks store query K !! j = Some b ->
        (relevance b <= relevance a)%Q).
Proof.
  intros HK. split; [|split; [|split; [|split; [|split; [|split]]]]].
  - intros ->. reflexivity.
  - intros Hneg.
    assert (Heq : searchChunks store query K
                  = take (List.length (ranked store query) - Z.to_nat (- K))
                      (ranked store query)).
    { unfold searchChunks. rewrite slice_prefix.
      apply Z.ltb_lt in Hneg. now rewrite Hneg. }
    split; [exact Heq|].
    rewrite Heq, length_take, ranked_length. lia.
  - apply ranked_perm.
  - intros i j a b Hij Hi Hj. eapply ranked_sorted; eauto.
  - intros r Hr. apply ranked_elem in Hr.
    destruct Hr as (kv & Hkv & Hpos & ->). split; [exact Hpos|].
    exists kv. auto.
  - intros K' HK'. now apply searchChunks_take.
  - intros i j a b Hij. unfold searchChunks. rewrite slice_prefix.
    destruct (K <? 0)%Z; intros Hi Hj;
      apply lookup_take_Some in Hi; apply lookup_take_Some in Hj;
      (eapply ranked_sorted; [exact Hij | apply Hi | apply Hj]).
Qed.

End SearchProperties.

(** ** Keywords and relevance *)

Section RelevanceProperties.
Import Js DocumentProcessor Reach.

Lemma uniq_from_elem (seen : gset string) (l : list string) (x : string) :
  x ∈ uniq_from seen l <-> x ∈ l /\ x ∉ seen.
Proof.
  revert seen. induction l as [|w r IH]; intros seen; simpl.
  - split; [intros H; inversion H | intros [H _]; inversion H].
  - destruct (bool_decide (w ∈ seen)) eqn:E.
    + apply bool_decide_eq_true_1 in E. rewrite IH, elem_of_cons.
      split; [tauto|]. intros [[->|H] Hn]; [contradiction | tauto].
    + apply bool_decide_eq_false_1 in E.
      rewrite !elem_of_cons, IH, elem_of_union, elem_of_singleton.
      split.
      * intros [->|[H Hn]]; tauto.
      * intros [[->|H] Hn]; [tauto|].
        destruct (decide (x = w)) as [->|Hne]; tauto.
Qed.

Lemma uniq_from_NoDup (seen : gset string) (l : list string) : NoDup (uniq_from seen l).
Proof.
  revert seen. induction l as [|w r IH]; intros seen; simpl.
  - apply NoDup_nil_2.
  - destruct (bool_decide (w ∈ seen)); [apply IH|].
    apply NoDup_cons. split; [|apply IH].
    rewrite uniq_from_elem, elem_of_union, elem_of_singleton. tauto.
Qed.

Lemma NoDup_List_filter {A} (f : A -> bool) (l : list A) :
  NoDup l -> NoDup (List.filter f l).
Proof.
  induction 1 as [|x l Hx Hl IH]; simpl; [constructor|].
  destruct (f x); [|exact IH].
  constructor; [|exact IH].
  rewrite list_elem_of_In, filter_In, <- list_elem_of_In. tauto.
Qed.

Lemma extractKeywords_NoDup (text : string) : NoDup (extractKeywords text).
Proof. apply uniq_from_NoDup. Qed.

(** The keywords of a text are its tokens (lower-cased, stripped of the
    characters that are neither word characters nor white space, split at
    white space) that have more than two characters and are no stop word. *)
Lemma extractKeywords_elem (text k : string) :
  k ∈ extractKeywords text <->
  k ∈ split_runs is_space
        (keep_chars (fun c => is_word c || is_space c) (toLowerCase text))
  /\ 2 < String.length k /\ k ∉ stopWords.
Proof.
  unfold extractKeywords, keyword_tokens. rewrite uniq_from_elem.
  rewrite list_elem_of_In, filter_In, <- list_elem_of_In, andb_true_iff.
  rewrite Nat.ltb_lt, negb_true_iff, bool_decide_eq_false.
  split; [tauto|]. intros (? & ? & ?). split; [tauto | apply not_elem_of_empty].
Qed.

Lemma includes_spec (l : list string) (k : string) : includes l k = true <-> k ∈ l.
Proof. unfold includes. apply bool_decide_eq_true. Qed.

(** The array [intersection] of [calculateRelevance] lists the intersection
    of the two keyword sets once each when the query keywords are pairwise
    distinct. *)
Lemma intersection_size (q c : list string) :
  NoDup q ->
  List.length (List.filter (includes c) q)
  = size (list_to_set q ∩ list_to_set c : gset string).
Proof.
  intros Hnd.
  rewrite <- (size_list_to_set (C := gset string) (List.filter (includes c) q)).
  - f_equal. apply set_eq. intros x.
    rewrite elem_of_intersection, !elem_of_list_to_set.
    rewrite list_elem_of_In, filter_In, <- list_elem_of_In, includes_spec. tauto.
  - now apply NoDup_List_filter.
Qed.

Lemma slice_prefix_elem {A} (l : list A) (k : Z) (x : A) : x ∈ slice l 0 k -> x ∈ l.
Proof.
  rewrite slice_prefix. destruct (k <? 0)%Z; apply subseteq_take.
Qed.

(** C2. The relevance of an indexed chunk for a query is the size of the
    intersection of the two keyword sets divided by the larger of 1 and the
    size of the query's keyword set, and lies between 0 and 1; the keywords
    of the query and those of the chunk come from the same function
    [extractKeywords] (tokens of the lower-cased text stripped of punctuation,
    without the tokens of at most two characters and the stop words, each
    once); a chunk whose keyword set is disjoint from the query's is in no
    result of a search. *)
Theorem relevance_is_overlap (query : string) (c : Chunk) :
  let Qs : gset string := list_to_set (extractKeywords query) in
  let Cs : gset string := list_to_set (keywords (index_entry c)) in
  let r := calculateRelevance (extractKeywords query) (keywords (index_entry c)) in
  (r == Z.of_nat (size (Qs ∩ Cs)) # Pos.of_nat (Nat.max (size Qs) 1))%Q
  /\ (0 <= r)%Q /\ (r <= 1)%Q
  /\ keywords (index_entry c) = extractKeywords (content c)
  /\ (forall text,
        NoDup (extractKeywords text)
        /\ forall k, k ∈ extractKeywords text <->
             k ∈ split_runs is_space
                   (keep_chars (fun c => is_word c || is_space c) (toLowerCase text))
             /\ 2 < String.length k /\ k ∉ stopWords)
  /\ (forall store topK res,
        indexed store -> Qs ∩ Cs = ∅ ->
        res ∈ searchChunks store query topK -> res_chunk res <> c).
Proof.
  intros Qs Cs r.
  pose proof (extractKeywords_NoDup query) as Hnd.
  split; [|split; [|split; [|split; [|split]]]].
  - unfold r. rewrite relevance_fraction.
    rewrite (intersection_size _ _ Hnd).
    unfold Qs. now rewrite (size_list_to_set _ Hnd).
  - apply relevance_range.
  - apply relevance_range.
  - reflexivity.
  - intros text. split; [apply extractKeywords_NoDup | apply extractKeywords_elem].
  - intros store topK res Hidx Hdisj Hres Hc.
    apply slice_prefix_elem, ranked_elem in Hres.
    destruct Hres as (kv & Hkv & Hpos & ->). simpl in Hc.
    apply indexed_ok in Hidx. destruct Hidx as [_ Hall].
    rewrite Forall_forall in Hall. specialize (Hall kv Hkv).
    assert (Hkw : keywords (snd kv) = keywords (index_entry c)).
    { rewrite Hall. simpl. now rewrite Hc. }
    rewrite Hkw in Hpos. apply relevance_positive in Hpos.
    rewrite (intersection_size _ _ Hnd) in Hpos.
    fold Qs Cs in Hpos. rewrite Hdisj, size_empty in Hpos. lia.
Qed.

End RelevanceProperties.

(** ** Facts about ingestion *)

Section IngestionFacts.
Import Js Env DocumentProcessor Batch.

Lemma run_and_then {S A B} (m : M S A) (k : A -> M S B) (s : S) :
  run (and_then m k) s
  = match run m s with
    | (s', Normal a) => run (k a) s'
    | (s', Throw e) => (s', Throw e)
    end.
Proof. reflexivity. Qed.

Lemma run_bind {S A B} (m : M S A) (k : A -> M S B) (s : S) :
  run (m ≫= k) s
  = match run m s with
    | (s', Normal a) => run (k a) s'
    | (s', Throw e) => (s', Throw e)
    end.
Proof. reflexivity. Qed.

Lemma run_try_catch {S A} (body : M S A) (handler : Thrown -> M S A) (s : S) :
  run (try_catch_M body handler) s
  = match run body s with
    | (s', Normal a) => (s', Normal a)
    | (s', Throw e) => run (handler e) s'
    end.
Proof. reflexivity. Qed.

Lemma extractTextFromFile_spec (file : File) (name : string) :
  extractTextFromFile file name = Normal (extraction file name).
Proof.
  unfold extractTextFromFile, extraction, extractPDFText, extractWordText,
    extractTextFile.
  destruct (String.eqb _ "pdf"); [reflexivity|].
  destruct (_ || _).
  - destruct (file_word file); reflexivity.
  - destruct (String.eqb _ "txt"); [|reflexivity].
    destruct (file_text file); reflexivity.
Qed.

Lemma text_test_ink (c : string) :
  truthy c && (0 <? String.length (trim c))%nat = has_ink c.
Proof.
  rewrite trim_length_pos. destruct (has_ink c) eqn:E.
  - now rewrite truthy_has_ink.
  - apply andb_false_r.
Qed.

Lemma discoverFilesInAssets_spec (w : World) :
  discoverFilesInAssets w = Normal (discovered w).
Proof.
  unfold discoverFilesInAssets, discovered.
  destruct (fetch_manifest w) as [response|e]; simpl; [|reflexivity].
  destruct (manifest_ok response); simpl; [|reflexivity].
  destruct (manifest_json response) as [[items|]|e]; reflexivity.
Qed.

Lemma load_file_spec (w : World) (name : string) (f : LoadFrame) :
  run (load_file w name) f
  = ({| this_ := this_ f; local_documents := local_documents f ++ kept w name |},
     Normal tt).
Proof.
  assert (Hsame : f = {| this_ := this_ f;
                         local_documents := local_documents f ++ [] |}).
  { rewrite app_nil_r. now destruct f. }
  unfold load_file, kept. simpl.
  destruct (fetch_asset w name) as [response|e]; simpl; [|now rewrite <- Hsame].
  destruct (ok response); simpl; [|now rewrite <- Hsame].
  destruct (blob response) as [file|e]; simpl; [|now rewrite <- Hsame].
  rewrite extractTextFromFile_spec. simpl.
  destruct (extraction file name) as [text|]; simpl; [|now rewrite <- Hsame].
  rewrite text_test_ink.
  destruct (has_ink text); simpl; [reflexivity | now rewrite <- Hsame].
Qed.

Lemma load_loop_spec (w : World) (names : list string) (f : LoadFrame) :
  run (for_of names (load_file w)) f
  = ({| this_ := this_ f;
        local_documents := local_documents f ++ flat_map (kept w) names |},
     Normal tt).
Proof.
  revert f. induction names as [|name r IH]; intros f.
  - simpl. rewrite app_nil_r. now destruct f.
  - cbn [for_of]. rewrite run_and_then, load_file_spec, IH. simpl.
    now rewrite <- app_assoc.
Qed.

Lemma loadAssetsDocuments_spec (w : World) (this : State) :
  run (loadAssetsDocuments w) this = (cleared this, Normal (surviving w)).
Proof.
  unfold loadAssetsDocuments. simpl.
  rewrite discoverFilesInAssets_spec. simpl.
  rewrite load_loop_spec. reflexivity.
Qed.

Lemma kept_ink (w : World) (name : string) (doc : Doc) :
  doc ∈ kept w name -> has_ink (in_content doc) = true /\ in_fileName doc = name.
Proof.
  unfold kept. intros H.
  destruct (fetch_asset w name) as [response|]; [|inversion H].
  destruct (ok response); [|inversion H].
  destruct (blob response) as [file|]; [|inversion H].
  destruct (extraction file name) as [text|]; [|inversion H].
  destruct (has_ink text) eqn:E; [|inversion H].
  apply list_elem_of_singleton in H. subst. auto.
Qed.

Lemma surviving_ink (w : World) (doc : Doc) :
  doc ∈ surviving w -> has_ink (in_content doc) = true.
Proof.
  unfold surviving. rewrite list_elem_of_In, in_flat_map.
  intros (name & _ & H). apply list_elem_of_In in H. now apply kept_ink in H.
Qed.

Lemma process_loop_spec (w : World) (docs : list Doc) (this : State) :
  (forall doc, doc ∈ docs -> has_ink (in_content doc) = true) ->
  run (for_of docs (fun doc => processDocument (date_now w (in_fileName doc)) doc)) this
  = (ingest w docs this, Normal tt).
Proof.
  revert this. induction docs as [|doc r IH]; intros this Hall; [reflexivity|].
  cbn [for_of]. rewrite run_and_then.
  unfold processDocument at 1. rewrite truthy_trim, (Hall doc) by left.
  cbn [modify run]. rewrite IH; [reflexivity|]. intros d Hd. apply Hall. now right.
Qed.

Lemma ingest_documents (w : World) (docs : list Doc) (this : State) :
  List.map doc_fileName (documents (ingest w docs this))
  = List.map doc_fileName (documents this) ++ List.map in_fileName docs.
Proof.
  unfold ingest. revert this. induction docs as [|doc r IH]; intros this; simpl.
  - now rewrite app_nil_r.
  - rewrite IH. simpl. rewrite map_app. simpl. now rewrite <- app_assoc.
Qed.

Lemma initialize_spec (w : World) (this : State) :
  isInitialized this = false ->
  run (initialize w) this
  = (set_initialized (ingest w (surviving w) (cleared this)),
     Normal (stats_of (set_initialized (ingest w (surviving w) (cleared this))))).
Proof.
  intros Hfresh. unfold initialize. rewrite run_bind. cbn [get run].
  rewrite Hfresh, run_try_catch, run_bind, loadAssetsDocuments_spec, run_bind.
  destruct (0 <? List.length (surviving w))%nat eqn:E.
  - rewrite process_loop_spec by apply surviving_ink. reflexivity.
  - apply Nat.ltb_ge in E.
    destruct (surviving w); [reflexivity | simpl in E; lia].
Qed.

Lemma upload_file_spec (w : World) (nf : string * File) (this : State) :
  run (upload_file w nf) this = (ingest w (kept_upload nf) this, Normal tt).
Proof.
  unfold upload_file, kept_upload. rewrite run_try_catch, run_bind.
  cbn [lift run]. rewrite extractTextFromFile_spec.
  destruct (extraction (snd nf) (fst nf)) as [text|]; [|reflexivity].
  unfold processDocument. cbn [in_content]. rewrite truthy_trim.
  destruct (has_ink text) eqn:E.
  - now rewrite (truthy_has_ink _ E).
  - now destruct (truthy text).
Qed.

Lemma upload_loop_spec (w : World) (files : list (string * File)) (this : State) :
  run (for_of files (upload_file w)) this
  = (ingest w (flat_map kept_upload files) this, Normal tt).
Proof.
  revert this. induction files as [|nf r IH]; intros this; [reflexivity|].
  cbn [for_of flat_map]. rewrite run_and_then, upload_file_spec, IH.
  unfold ingest. now rewrite fold_left_app.
Qed.

(** An uploaded batch never throws either, and ingests the files that have
    a text, on top of what the index holds. *)
Lemma processUploadedFiles_spec (w : World) (files : list (string * File))
    (this : State) :
  run (processUploadedFiles w files) this
  = (ingest w (flat_map kept_upload files) this,
     Normal (stats_of (ingest w (flat_map kept_upload files) this))).
Proof.
  unfold processUploadedFiles. rewrite run_bind, upload_loop_spec. reflexivity.
Qed.

End IngestionFacts.

(** ** Ingesting a batch *)

Section IngestionProperties.
Import Js Env DocumentProcessor Batch.

(** [initialize] never throws, whatever the state it starts from. *)
Lemma initialize_total (w : World) (this : State) :
  exists this', run (initialize w) this = (this', Normal (stats_of this'))
    /\ this' = if isInitialized this then this
               else set_initialized (ingest w (surviving w) (cleared this)).
Proof.
  destruct (isInitialized this) eqn:E.
  - exists this. split; [|reflexivity].
    unfold initialize. rewrite run_bind. cbn [get run]. now rewrite E.
  - eexists. split; [now apply initialize_spec | reflexivity].
Qed.

(** What a batch of assets does, for every manifest and every file. The
    batch never throws out of [initialize]: the processor ends up as if
    exactly the surviving documents had been processed in order on an empty
    index, and the statistics count them and nothing else. A file is
    skipped, and adds nothing, when its extraction yields no text or a text
    that is empty after trimming; a plain-text read that throws yields no
    text. The Word extractor is the one path that does not follow: when the
    conversion throws it hands back a bracketed error text, which the batch
    then takes for the text of the document. With one text file that fails
    and one that reads well, the statistics are those of the good file
    alone. *)
Theorem initialize_ingests_survivors (w : World) (this : State) :
  isInitialized this = false ->
  (exists stats,
     run (initialize w) this
     = (set_initialized (ingest w (surviving w) (cleared this)), Normal stats)
     /\ totalDocuments stats = List.length (surviving w)
     /\ List.map stat_fileName (stat_documents stats)
        = List.map in_fileName (surviving w))
  /\ (forall name response file,
        fetch_asset w name = Normal response -> ok response = true ->
        blob response = Normal file ->
        (extraction file name = None
         \/ exists text, extraction file name = Some text /\ has_ink text = false) ->
        kept w name = [])
  /\ (forall name file e,
        toLowerCase (extension name) = "txt" -> file_text file = Throw e ->
        extractTextFromFile file name = Normal None)
  /\ (forall name file e,
        toLowerCase (extension name) = "docx" \/ toLowerCase (extension name) = "doc" ->
        file_word file = Throw e ->
        extractTextFromFile file name
        = Normal (Some ("[Error extracting text from Word document: "
                        +:+ message_text e +:+ "]")))
  /\ snd (run (initialize Sample.text_fails) new)
     = Normal {| totalDocuments := 1; totalChunks := 1;
                 stat_documents :=
                   [{| stat_fileName := "notes.txt"; stat_chunks := 1 |}] |}.
Proof.
  intros Hfresh. split; [|split; [|split; [|split]]].
  - eexists. split; [now apply initialize_spec|].
    pose proof (ingest_documents w (surviving w) (cleared this)) as Hdocs.
    simpl in Hdocs. split.
    + simpl. rewrite <- (length_map doc_fileName), Hdocs. apply length_map.
    + simpl. rewrite map_map. exact Hdocs.
  - intros name response file Hf Hok Hb Hskip. unfold kept.
    rewrite Hf, Hok, Hb.
    destruct Hskip as [->|(text & -> & ->)]; reflexivity.
  - intros name file e Hext Hthrow. rewrite extractTextFromFile_spec.
    unfold extraction. rewrite Hext, Hthrow. reflexivity.
  - intros name file e Hext Hthrow. rewrite extractTextFromFile_spec.
    unfold extraction. destruct Hext as [-> | ->]; rewrite Hthrow; reflexivity.
  - vm_compute. reflexivity.
Qed.

(** C6 at a Word document whose conversion throws. The manifest lists
    [broken.docx], whose conversion throws, and [notes.txt], which reads
    well. The failed file should be skipped and the statistics should be
    those of [notes.txt] alone, which is what the batch does when the failing
    file is the plain-text [broken.txt]: its extraction yields no text.
    For [broken.docx] the extraction yields the error text of
    [extractWordText] instead; the batch indexes a document of that name
    whose only chunk is the error text, and the statistics count two
    documents. *)
Lemma failed_word_document_is_ingested :
  fetch_asset Sample.word_fails "broken.docx" = Sample.body Sample.broken_file
  /\ extraction_throws Sample.broken_file "broken.docx" = true
  /\ snd (run (initialize Sample.word_fails) new)
     = Normal {| totalDocuments := 2; totalChunks := 2;
                 stat_documents :=
                   [{| stat_fileName := "broken.docx"; stat_chunks := 1 |};
                    {| stat_fileName := "notes.txt"; stat_chunks := 1 |}] |}
  /\ List.map (fun kv => content (chunk (snd kv)))
       (vectorStore (fst (run (initialize Sample.word_fails) new)))
     = ["[Error extracting text from Word document: corrupt file]"; "Hello world Bye"]
  /\ extraction Sample.broken_file "broken.docx"
     = Some "[Error extracting text from Word document: corrupt file]"
  /\ extraction_throws Sample.broken_file "broken.txt" = true
  /\ extraction Sample.broken_file "broken.txt" = None
  /\ snd (run (initialize Sample.text_fails) new)
     = Normal {| totalDocuments := 1; totalChunks := 1;
                 stat_documents :=
                   [{| stat_fileName := "notes.txt"; stat_chunks := 1 |}] |}
  /\ List.map (fun kv => content (chunk (snd kv)))
       (vectorStore (fst (run (initialize Sample.text_fails) new)))
     = ["Hello world Bye"].
Proof.
  repeat split; vm_compute; reflexivity.
Qed.

End IngestionProperties.

(** ** The policy scenario *)

Section Scenario.
Import Js DocumentProcessor.

(** C4. Ingesting the one document [policy.txt] with the content
    "Reset your password. Use the portal." and a chunk size of 500 gives
    exactly one chunk; searching "password" then returns exactly one result,
    whose source is "policy.txt (Page 1)" and whose relevance is 1: the
    keyword set of the query is {"password"}, and the chunk's keywords
    contain it. *)
Theorem policy_scenario (now : string) :
  let engine := fst (run (processDocument now Sample.policy) new) in
  List.length (createChunks (in_content Sample.policy) (Sample.policy_metadata now) 500 100)
  = 1
  /\ stats_of engine
     = {| totalDocuments := 1; totalChunks := 1;
          stat_documents := [{| stat_fileName := "policy.txt"; stat_chunks := 1 |}] |}
  /\ extractKeywords "password" = ["password"]
  /\ List.map (fun kv => keywords (snd kv)) (vectorStore engine)
     = [["reset"; "your"; "password"; "use"; "portal"]]
  /\ List.map (fun r => (source r, relevance r))
       (searchChunks (vectorStore engine) "password" default_topK)
     = [("policy.txt (Page 1)", 1%Q)].
Proof.
  repeat split; vm_compute; reflexivity.
Qed.

End Scenario.

(** ** The tool-invocation boundary *)

Section ToolProperties.
Import Js Env Batch.

Lemma slice_nil {A} (a b : Z) : slice (@nil A) a b = [].
Proof. unfold slice. now rewrite skipn_nil, firstn_nil. Qed.

Lemma searchChunks_empty (query : string) (topK : Z) :
  DocumentProcessor.searchChunks [] query topK = [].
Proof. unfold DocumentProcessor.searchChunks. apply slice_nil. Qed.

Lemma ingest_no_documents (w : World) (docs : list DocumentProcessor.Doc)
    (this : DocumentProcessor.State) :
  List.length (DocumentProcessor.documents (ingest w docs this)) = 0 ->
  docs = [] /\ ingest w docs this = this.
Proof.
  intros Hlen. rewrite <- (length_map DocumentProcessor.doc_fileName) in Hlen.
  rewrite ingest_documents, length_app, !length_map in Hlen.
  destruct docs; [now split | simpl in Hlen; lia].
Qed.

(** The first search on the fresh singleton initialises it, without a throw,
    and then searches the index that the surviving assets make. *)
Lemma searchDocuments_fresh (w : World) (query : string) (topK : Z) :
  let dp := DocumentProcessor.set_initialized
              (ingest w (surviving w) (cleared DocumentProcessor.new)) in
  run (RAGService.searchDocuments w query topK) RAGService.new
  = ({| RAGService.documentProcessor := dp;
        RAGService.isInitialized := true;
        RAGService.stats := Some (DocumentProcessor.stats_of dp) |},
     Normal (List.map RAGService.to_result
               (DocumentProcessor.searchChunks
                  (DocumentProcessor.vectorStore dp) query topK))).
Proof.
  intros dp. unfold RAGService.searchDocuments.
  rewrite run_bind. cbn [get run].
  change (RAGService.isInitialized RAGService.new) with false. cbn [negb].
  rewrite run_bind, run_bind. unfold RAGService.initialize at 1.
  rewrite run_bind. cbn [get run].
  change (RAGService.isInitialized RAGService.new) with false. cbv iota.
  rewrite run_try_catch, run_bind.
  unfold RAGService.on_processor, zoom. cbn [run].
  change (RAGService.documentProcessor RAGService.new) with DocumentProcessor.new.
  rewrite initialize_spec by reflexivity. reflexivity.
Qed.

(** The handler leaves the service as the search left it and answers by
    the outcome of the search; it never throws. *)
Lemma handler_run {S} (search : string -> Z -> M S (list RAGService.Result))
    (query : string) (top_k : option Z) (s : S) :
  run (Tool.handler search query top_k) s
  = (fst (run (search query (default 5%Z top_k)) s),
     Normal (Boundary.answer query (snd (run (search query (default 5%Z top_k)) s)))).
Proof.
  unfold Tool.handler. rewrite run_try_catch, run_bind.
  destruct (run (search query (default 5%Z top_k)) s) as [s' [[|x l]|e]]; reflexivity.
Qed.

(** C5. The handler of the search tool never throws and answers with one of
    the three statuses [success], [no_results] and [error]: [no_results]
    exactly when the search it awaits returns an empty sequence, [success]
    with the content, the sources and the summary when the search returns
    results, and [error] with a message when the search throws. On the
    singleton service, when no document is ingested every query is answered
    [no_results]. *)
Theorem handler_three_statuses :
  (forall (S : Type) (search : string -> Z -> M S (list RAGService.Result))
          (query : string) (top_k : option Z) (s : S),
     exists r,
       snd (run (Tool.handler search query top_k) s) = Normal r
       /\ (Tool.status r = "success" \/ Tool.status r = "no_results"
           \/ Tool.status r = "error")
       /\ (Tool.status r = "no_results"
           <-> snd (run (search query (default 5%Z top_k)) s) = Normal [])
       /\ (forall results,
             snd (run (search query (default 5%Z top_k)) s) = Normal results ->
             results <> [] ->
             exists message,
               r = Tool.Success message query (List.length results)
                     (Tool.truncate 2000
                        (join (Tool.newline +:+ Tool.newline)
                           (Tool.format_from 0 results)))
                     (List.map RAGService.source results)
                     (Tool.truncate 400
                        (join (Tool.newline +:+ Tool.newline)
                           (Tool.format_from 0 results))))
       /\ (forall e,
             snd (run (search query (default 5%Z top_k)) s) = Throw e ->
             r = Tool.Error "Failed to search documents" (Tool.error_message e)))
  /\ (forall (w : World) (query : string) (top_k : option Z),
        let after := run (Tool.search_documents w query top_k) RAGService.new in
        DocumentProcessor.totalDocuments
          (DocumentProcessor.stats_of (RAGService.documentProcessor (fst after))) = 0 ->
        exists message, snd after = Normal (Tool.NoResults message query)).
Proof.
  split.
  - intros S search query top_k s. rewrite handler_run. cbn [snd].
    eexists. split; [reflexivity|].
    destruct (snd (run (search query (default 5%Z top_k)) s)) as [[|x l]|e];
      cbn [Boundary.answer Tool.status].
    + split; [tauto|]. split; [tauto|]. split; [|discriminate].
      intros results H. injection H as <-. congruence.
    + split; [tauto|]. split; [split; discriminate|]. split; [|discriminate].
      intros results H _. injection H as <-. eexists. reflexivity.
    + split; [tauto|]. split; [split; discriminate|]. split; [discriminate|].
      intros e' H. now injection H as <-.
  - intros w query top_k after Hzero. subst after.
    unfold Tool.search_documents in *. rewrite handler_run in *.
    rewrite searchDocuments_fresh in *. cbn [fst snd] in *.
    cbn [RAGService.documentProcessor DocumentProcessor.stats_of
         DocumentProcessor.totalDocuments DocumentProcessor.set_initialized
         DocumentProcessor.documents] in Hzero.
    apply ingest_no_documents in Hzero. destruct Hzero as [_ Hsame].
    cbn [DocumentProcessor.set_initialized DocumentProcessor.vectorStore].
    rewrite Hsame. cbn [cleared DocumentProcessor.vectorStore].
    rewrite searchChunks_empty. eexists. reflexivity.
Qed.

(** The three answers on concrete runs: no asset at all, one matching
    document, and a search that throws. *)
Example tool_without_documents :
  snd (run (Tool.search_documents Sample.no_assets "anything" None) RAGService.new)
  = Normal (Tool.NoResults "No relevant documents found for your query." "anything").
Proof. vm_compute. reflexivity. Qed.

Example tool_with_a_match :
  Tool.status
    (Boundary.answer "hello"
       (snd (run (RAGService.searchDocuments Sample.text_fails "hello" 5)
               RAGService.new)))
  = "success".
Proof. vm_compute. reflexivity. Qed.

Example tool_when_search_throws :
  snd (run (Tool.handler (fun _ _ => lift (Throw (ErrorObj "index unavailable")))
              "anything" (Some 3%Z)) tt)
  = Normal (Tool.Error "Failed to search documents" "index unavailable").
Proof. reflexivity. Qed.

End ToolProperties.

(** ** The chunker against its specification *)

Section ChunkerRefinement.
Import Js DocumentProcessor Reach.

(** Splitting at runs of separators and splitting at every separator differ
    by empty pieces only. *)
Lemma split_runs_each (sep : ascii -> bool) (keep : string -> bool) (s cur : string)
    (b : bool) :
  keep "" = false -> (b = true -> cur = "") ->
  List.filter keep (split_runs_aux sep s cur b)
  = List.filter keep (split_each_aux sep s cur).
Proof.
  intros Hkeep. revert cur b. induction s as [|c r IH]; intros cur b Hb; simpl.
  - reflexivity.
  - destruct (sep c).
    + destruct b.
      * rewrite (Hb eq_refl). simpl. rewrite Hkeep. now apply IH.
      * simpl. rewrite (IH "" true) by reflexivity. reflexivity.
    + apply IH. discriminate.
Qed.

Lemma sentences_agree (text : string) :
  List.map trim (sentences_of text) = ChunkerSpec.sentences text.
Proof.
  unfold sentences_of, ChunkerSpec.sentences, ChunkerSpec.fragments, split_runs,
    split_each.
  rewrite (split_runs_each _ _ _ _ false) by (reflexivity || discriminate).
  f_equal. apply filter_ext. intros s.
  now rewrite <- truthy_length, truthy_eqb.
Qed.

(** With at least one overlap word, [slice] with the negated count takes the
    last words. *)
Lemma overlap_words_last (overlap : Z) (buffer : string) :
  (5 <= overlap)%Z ->
  overlap_words overlap buffer
  = ChunkerSpec.last_words (Z.to_nat (overlap / 5)) buffer.
Proof.
  intros Hov.
  assert (Hq : (1 <= overlap / 5)%Z) by (apply Z.div_le_lower_bound; lia).
  unfold overlap_words, ChunkerSpec.last_words, slice_from, rel_index.
  destruct (- (overlap / 5) <? 0)%Z eqn:E; [|apply Z.ltb_ge in E; lia].
  f_equal. lia.
Qed.

(** With an overlap below 5 the count is 0, and [slice(-0)] takes every
    word of the buffer and not the last 0. *)
Lemma overlap_words_all (overlap : Z) (buffer : string) :
  (0 <= overlap < 5)%Z ->
  overlap_words overlap buffer = split_char " " buffer
  /\ ChunkerSpec.last_words (Z.to_nat (overlap / 5)) buffer = [].
Proof.
  intros Hov. unfold overlap_words, ChunkerSpec.last_words.
  rewrite (Z.div_small overlap 5) by lia. split.
  - reflexivity.
  - simpl. rewrite Nat.sub_0_r. apply skipn_all.
Qed.

Lemma detect_page_chunks (st : Loop) : chunks (detect_page st) = chunks st.
Proof. unfold detect_page. now destruct (_ <? _)%nat. Qed.

Lemma loop_refines (md : Metadata) (chunkSize overlap : Z) (raws : list string)
    (st : Loop) :
  (5 <= overlap)%Z -> loop_inv md st ->
  (forall raw, raw ∈ raws -> has_ink raw = true) ->
  List.map content (finish md (fold_left (loop_body md chunkSize overlap) raws st))
  = List.map content (chunks st)
    ++ List.map trim
         (ChunkerSpec.emitted chunkSize (Z.to_nat (overlap / 5)) (currentChunk st)
            (List.map trim raws)).
Proof.
  intros Hov. revert st. induction raws as [|raw rest IH]; intros st Hinv Hall.
  - simpl. unfold finish. rewrite truthy_trim.
    destruct (inv_buffer _ _ Hinv) as [E|E].
    + rewrite E. simpl. now rewrite app_nil_r.
    + rewrite E. destruct (currentChunk st) eqn:Ec; [discriminate|].
      simpl. rewrite map_app. reflexivity.
  - assert (Hraw : has_ink raw = true) by (apply Hall; left).
    destruct (loop_inv_body md chunkSize overlap st raw Hinv Hraw) as [Hinv' _].
    cbn [fold_left List.map]. rewrite (IH _ Hinv') by (intros r Hr; apply Hall; now right).
    unfold loop_body. rewrite detect_page_chunks, detect_page_buffer.
    unfold accumulate. cbn [ChunkerSpec.emitted].
    rewrite andb_comm, <- truthy_length, truthy_eqb.
    destruct (negb (String.eqb (currentChunk st) "") && _) eqn:Hc.
    + cbn [chunks currentChunk]. rewrite map_app. cbn [List.map make_chunk content].
      rewrite <- app_assoc. cbn [app]. now rewrite overlap_words_last.
    + cbn [chunks currentChunk]. do 3 f_equal.
      now destruct (currentChunk st).
Qed.

(** The refinement that holds: for an overlap of 5 or more, the contents of
    the chunks of [createChunks] are those the specification describes. *)
Lemma createChunks_refines_spec (text : string) (md : Metadata) (chunkSize overlap : Z) :
  (5 <= overlap)%Z ->
  List.map content (createChunks text md chunkSize overlap)
  = ChunkerSpec.chunk_contents text chunkSize overlap.
Proof.
  intros Hov. unfold createChunks, run_loop, ChunkerSpec.chunk_contents.
  rewrite loop_refines; [| exact Hov | apply loop_inv_init |].
  - simpl. now rewrite sentences_agree.
  - intros raw Hraw. now apply sentences_of_ink in Hraw.
Qed.

(** C3 at an overlap of 0. The specification seeds the new buffer with the
    last [floor(0 / 5) = 0] words of the emitted chunk, so the chunks are
    "aa bb cc" and "dd ee ff"; the code seeds it with the whole emitted
    buffer, and every chunk repeats all the text before it. *)
Theorem zero_overlap_carries_whole_buffer (md : Metadata) :
  List.map content (createChunks "aa bb cc. dd ee. ff" md 10 0)
  = ["aa bb cc"; "aa bb cc dd ee"; "aa bb cc dd ee ff"]
  /\ ChunkerSpec.chunk_contents "aa bb cc. dd ee. ff" 10 0
     = ["aa bb cc"; "dd ee ff"]
  /\ overlap_words 0 "aa bb cc" = ["aa"; "bb"; "cc"]
  /\ ChunkerSpec.last_words (Z.to_nat (0 / 5)) "aa bb cc" = [].
Proof.
  repeat split; vm_compute; reflexivity.
Qed.

End ChunkerRefinement.

(** ** The theorems at concrete inputs *)

Section Witnesses.
Import Js Env DocumentProcessor Reach Batch.

Lemma searchChunks_top_ranked_witness :
  (1 <= 5)%Z
  /\ Z.of_nat (List.length (searchChunks Sample.index "password" 5))
     = Z.min 5 (Z.of_nat (positive_count (extractKeywords "password") Sample.index)).
Proof.
  split; [lia|].
  apply (searchChunks_top_ranked Sample.index "password" 5). lia.
Defined.

Lemma reindex_overwrites_witness :
  indexed Sample.index
  /\ is_Some (map_get (id Sample.chunk_v2) Sample.index)
  /\ List.length (addToVectorStore [Sample.chunk_v2] Sample.index)
     = List.length Sample.index
  /\ entries_for (id Sample.chunk_v2) (addToVectorStore [Sample.chunk_v2] Sample.index) = 1.
Proof.
  assert (Hidx : indexed Sample.index) by apply indexed_add, indexed_empty.
  assert (Hsome : is_Some (map_get (id Sample.chunk_v2) Sample.index)).
  { vm_compute. eexists. reflexivity. }
  split; [exact Hidx|]. split; [exact Hsome|].
  destruct (reindex_overwrites Sample.index Sample.chunk_v2 Hidx Hsome) as (H1 & H2 & _).
  split; [exact H1 | exact H2].
Defined.

Lemma searchChunks_nonpositive_topK_witness :
  (-1 <= 0)%Z
  /\ List.map (fun r => (content (res_chunk r), Qred (relevance r)))
       (ranked Sample.library "password portal")
     = [("Reset your password in the portal", 1%Q);
        ("Open the portal", (1 # 2)%Q);
        ("Change the password", (1 # 2)%Q)]
  /\ searchChunks Sample.library "password portal" (-1)
     = take 2 (ranked Sample.library "password portal")
  /\ List.length (searchChunks Sample.library "password portal" (-1))
     = positive_count (extractKeywords "password portal") Sample.library - 1
  /\ (forall i j a b, i <= j ->
        searchChunks Sample.library "password portal" (-1) !! i = Some a ->
        searchChunks Sample.library "password portal" (-1) !! j = Some b ->
        (relevance b <= relevance a)%Q).
Proof.
  split; [lia|]. split; [vm_compute; reflexivity|].
  destruct (searchChunks_nonpositive_topK Sample.library "password portal" (-1))
    as (_ & Hneg & _ & _ & _ & _ & Hsorted); [lia|].
  destruct Hneg as [Heq Hlen]; [lia|].
  split; [exact Heq|]. split; [exact Hlen | exact Hsorted].
Defined.

Lemma initialize_ingests_survivors_witness :
  isInitialized new = false
  /\ snd (run (initialize Sample.text_fails) new)
     = Normal {| totalDocuments := 1; totalChunks := 1;
                 stat_documents :=
                   [{| stat_fileName := "notes.txt"; stat_chunks := 1 |}] |}.
Proof.
  split; [reflexivity|].
  apply (initialize_ingests_survivors Sample.text_fails new). reflexivity.
Defined.

End Witnesses.

(** * Further properties of the engine *)

(** ** Keywords *)

Section KeywordFacts.
Import Js DocumentProcessor Reach Text.

Lemma lower_char_idempotent (c : ascii) : lower_char (lower_char c) = lower_char c.
Proof. destruct c as [[] [] [] [] [] [] [] []]; reflexivity. Qed.

Lemma toLowerCase_idempotent (s : string) : toLowerCase (toLowerCase s) = toLowerCase s.
Proof.
  induction s as [|c r IH]; simpl; [reflexivity|].
  now rewrite lower_char_idempotent, IH.
Qed.

Lemma all_chars_app (p : ascii -> bool) (a b : string) :
  all_chars p (a +:+ b) = all_chars p a && all_chars p b.
Proof.
  induction a as [|c a IH]; simpl; [reflexivity|].
  now rewrite IH, andb_assoc.
Qed.

Lemma all_chars_toLowerCase (s : string) :
  all_chars (fun c => Ascii.eqb (lower_char c) c) (toLowerCase s) = true.
Proof.
  induction s as [|c r IH]; simpl; [reflexivity|].
  rewrite IH, lower_char_idempotent, Ascii.eqb_refl. reflexivity.
Qed.

Lemma all_chars_keep (p keep : ascii -> bool) (s : string) :
  all_chars p s = true ->
  all_chars (fun c => p c && keep c) (keep_chars keep s) = true.
Proof.
  induction s as [|c r IH]; simpl; [reflexivity|].
  intros H. apply andb_true_iff in H. destruct H as [Hc Hr].
  destruct (keep c) eqn:E; simpl; [|now apply IH].
  rewrite Hc, E, IH by exact Hr. reflexivity.
Qed.

(** The pieces of a split are made of the characters of the text that are
    no separators. *)
Lemma split_runs_aux_chars (p sep : ascii -> bool) (s cur : string) (b : bool)
    (piece : string) :
  all_chars p s = true ->
  all_chars (fun c => p c && negb (sep c)) cur = true ->
  piece ∈ split_runs_aux sep s cur b ->
  all_chars (fun c => p c && negb (sep c)) piece = true.
Proof.
  revert cur b. induction s as [|c r IH]; intros cur b Hs Hcur Hin; simpl in *.
  - apply list_elem_of_singleton in Hin. now subst.
  - apply andb_true_iff in Hs. destruct Hs as [Hc Hr].
    destruct (sep c) eqn:E.
    + destruct b.
      * now apply (IH cur true).
      * apply elem_of_cons in Hin. destruct Hin as [->|Hin]; [exact Hcur|].
        now apply (IH "" true).
    + apply (IH (cur +:+ String c "") false); [exact Hr | | exact Hin].
      rewrite all_chars_app, Hcur. simpl. now rewrite Hc, E.
Qed.

Lemma all_chars_weaken (p q : ascii -> bool) (s : string) :
  (forall c, p c = true -> q c = true) -> all_chars p s = true -> all_chars q s = true.
Proof.
  intros Hpq. induction s as [|c r IH]; simpl; [reflexivity|].
  intros H. apply andb_true_iff in H. destruct H as [Hc Hr].
  now rewrite (Hpq c Hc), IH.
Qed.

Lemma keyword_tokens_chars (text k : string) :
  k ∈ split_runs is_space
        (keep_chars (fun c => is_word c || is_space c) (toLowerCase text)) ->
  all_chars is_keyword_char k = true.
Proof.
  intros Hin.
  pose proof (all_chars_keep _ (fun c => is_word c || is_space c) _
                (all_chars_toLowerCase text)) as Hkept.
  pose proof (split_runs_aux_chars _ is_space _ "" false k Hkept eq_refl Hin) as Hk.
  revert Hk. apply all_chars_weaken. intros c Hc. unfold is_keyword_char.
  apply andb_true_iff in Hc. destruct Hc as [Hc Hns].
  apply andb_true_iff in Hc. destruct Hc as [Hlow Hws].
  rewrite Hlow, andb_true_r.
  destruct (is_space c); [discriminate|]. now rewrite orb_false_r in Hws.
Qed.

(** X1. Whatever the text, each keyword [extractKeywords] returns has more
    than two characters, is no stop word, occurs once in the result, and is
    made only of word characters (letters, digits, underscore) that
    lower-casing leaves unchanged: no white space, no punctuation and no
    upper-case letter survives in a keyword. *)
Theorem keywords_are_normalised (text k : string) :
  k ∈ extractKeywords text ->
  all_chars is_keyword_char k = true
  /\ 2 < String.length k
  /\ (k ∉ stopWords)
  /\ List.length (List.filter (String.eqb k) (extractKeywords text)) = 1.
Proof.
  intros Hin.
  destruct (proj1 (extractKeywords_elem text k) Hin) as (Htok & Hlen & Hstop).
  split; [now apply (keyword_tokens_chars text)|]. split; [exact Hlen|]. split; [exact Hstop|].
  pose proof (extractKeywords_NoDup text) as Hnd. revert Hin Hnd.
  generalize (extractKeywords text) as l. induction l as [|x l IH]; intros Hin Hnd.
  - inversion Hin.
  - apply NoDup_cons in Hnd. destruct Hnd as [Hx Hnd]. simpl.
    destruct (String.eqb_spec k x) as [->|Hne]; simpl.
    + f_equal. clear IH Hin Hnd. induction l as [|y l IH]; simpl; [reflexivity|].
      destruct (String.eqb_spec x y) as [->|Hy].
      * exfalso. apply Hx. left.
      * apply IH. intros H. apply Hx. now right.
    + apply IH; [|exact Hnd]. apply elem_of_cons in Hin. destruct Hin; congruence.
Qed.

(** The theorem on the keyword "portal2" of a sentence. *)
Lemma keywords_are_normalised_witness :
  "portal2" ∈ extractKeywords "Go to Portal-2, please!"
  /\ all_chars is_keyword_char "portal2" = true.
Proof.
  assert (Hin : "portal2" ∈ extractKeywords "Go to Portal-2, please!").
  { vm_compute. left. }
  split; [exact Hin|].
  apply (keywords_are_normalised "Go to Portal-2, please!" "portal2" Hin).
Defined.

(** X2. Letter case plays no part in a search: the keywords of a text are
    those of its lower-cased form, so a query and its lower-cased form get
    the same results from any index. *)
Theorem search_ignores_case (store : VectorStore) (query : string) (topK : Z) :
  extractKeywords (toLowerCase query) = extractKeywords query
  /\ searchChunks store (toLowerCase query) topK = searchChunks store query topK.
Proof.
  assert (H : extractKeywords (toLowerCase query) = extractKeywords query).
  { unfold extractKeywords, keyword_tokens. now rewrite toLowerCase_idempotent. }
  split; [exact H|].
  unfold searchChunks, ranked. now rewrite H.
Qed.

End KeywordFacts.

(** ** Ranking *)

Section RankingFacts.
Import Js DocumentProcessor Reach.

Lemma scored_no_keywords (store : VectorStore) : scored [] store = [].
Proof.
  unfold scored. induction store as [|kv r IH]; simpl; [reflexivity|exact IH].
Qed.

(** X3. A query none of whose words is a keyword (every word is a stop word
    or has at most two characters) finds nothing, whatever the index holds
    and whatever [topK] is. *)
Theorem search_without_keywords (store : VectorStore) (query : string) (topK : Z) :
  extractKeywords query = [] -> searchChunks store query topK = [].
Proof.
  intros Hq. unfold searchChunks, ranked. rewrite Hq, scored_no_keywords.
  simpl. unfold slice. now rewrite skipn_nil, firstn_nil.
Qed.

Lemma search_without_keywords_witness :
  extractKeywords "To be, or is it me?" = []
  /\ searchChunks Sample.index "To be, or is it me?" 5 = [].
Proof.
  assert (Hq : extractKeywords "To be, or is it me?" = []) by (vm_compute; reflexivity).
  split; [exact Hq|].
  apply (search_without_keywords Sample.index "To be, or is it me?" 5 Hq).
Defined.

Lemma filter_length_all {A} (f : A -> bool) (l : list A) :
  List.length (List.filter f l) = List.length l <-> forall x, x ∈ l -> f x = true.
Proof.
  induction l as [|x l IH]; simpl.
  - split; [intros _ y Hy; inversion Hy | reflexivity].
  - pose proof (filter_length_le f l) as Hle.
    destruct (f x) eqn:E; simpl.
    + split.
      * intros H y Hy. apply elem_of_cons in Hy. destruct Hy as [->|Hy]; [exact E|].
        apply IH; [lia | exact Hy].
      * intros H. f_equal. apply IH. intros y Hy. apply H. now right.
    + split; [lia|]. intros H. rewrite (H x) in E by left. discriminate.
Qed.

(** X4. For a query with at least one keyword, a chunk scores 1, the highest
    score there is, exactly when its keywords include every keyword of the
    query. *)
Theorem full_match_scores_one (queryKeywords chunkKeywords : list string) :
  queryKeywords <> [] ->
  ((calculateRelevance queryKeywords chunkKeywords == 1)%Q
   <-> forall k, k ∈ queryKeywords -> k ∈ chunkKeywords).
Proof.
  intros Hne.
  assert (Hlen : 0 < List.length queryKeywords) by (destruct queryKeywords; simpl; [congruence | lia]).
  rewrite relevance_fraction. unfold Qeq. simpl.
  rewrite pos_of_nat_Z by lia. rewrite Nat.max_l by lia.
  rewrite Z.mul_1_r, Z.mul_1_l, Nat2Z.inj_iff, filter_length_all.
  split; intros H k Hk; apply includes_spec; now apply H.
Qed.

Lemma full_match_scores_one_witness :
  ["reset"; "password"] <> []
  /\ (calculateRelevance ["reset"; "password"] ["reset"; "your"; "password"] == 1)%Q.
Proof.
  assert (Hne : ["reset"; "password"] <> []) by discriminate.
  split; [exact Hne|].
  apply (full_match_scores_one ["reset"; "password"] ["reset"; "your"; "password"] Hne).
  intros k Hk. apply elem_of_cons in Hk. destruct Hk as [->|Hk]; [left|].
  apply list_elem_of_singleton in Hk. subst. right. right. left.
Defined.

(** X5. Asking for more results only extends the answer: for
    [0 <= k <= k'], the results for [topK = k] are the first [k] results
    for [topK = k']. *)
Theorem fewer_results_are_a_prefix (store : VectorStore) (query : string) (k k' : Z) :
  (0 <= k <= k')%Z ->
  searchChunks store query k = take (Z.to_nat k) (searchChunks store query k').
Proof.
  intros Hk. rewrite !searchChunks_take by lia.
  rewrite take_take. f_equal. lia.
Qed.

Lemma fewer_results_are_a_prefix_witness :
  (0 <= 1 <= 5)%Z
  /\ searchChunks Sample.index "password" 1
     = take (Z.to_nat 1) (searchChunks Sample.index "password" 5).
Proof.
  split; [lia|].
  apply (fewer_results_are_a_prefix Sample.index "password" 1 5). lia.
Defined.

Lemma filter_keys_NoDup (f : string * Entry -> bool) (store : VectorStore) :
  NoDup (List.map fst store) -> NoDup (List.map fst (List.filter f store)).
Proof.
  induction store as [|kv r IH]; simpl; intros Hnd; [exact Hnd|].
  apply NoDup_cons in Hnd. destruct Hnd as [Hkv Hnd].
  destruct (f kv); simpl; [|now apply IH].
  apply NoDup_cons. split; [|now apply IH].
  intros Hin. apply Hkv.
  apply list_elem_of_In, in_map_iff in Hin. destruct Hin as (x & Hx & Hin).
  apply filter_In in Hin. apply list_elem_of_In, in_map_iff. exists x. tauto.
Qed.

Lemma scored_ids (q : list string) (store : VectorStore) :
  store_ok store ->
  List.map (fun r => id (res_chunk r)) (scored q store)
  = List.map fst
      (List.filter
         (fun kv => Qgt_bool (calculateRelevance q (keywords (snd kv))) 0) store).
Proof.
  intros [_ Hall]. unfold scored.
  induction store as [|kv r IH]; simpl; [reflexivity|].
  apply Forall_cons in Hall. destruct Hall as [Hkv Hall].
  rewrite map_app, IH by exact Hall.
  destruct (Qgt_bool _ 0); simpl; [|reflexivity].
  f_equal. now rewrite Hkv at 2.
Qed.

(** X6. A search of an index built by [addToVectorStore] never returns the
    same chunk twice: the ids of the results are pairwise distinct. *)
Theorem results_are_distinct (store : VectorStore) (query : string) (topK : Z) :
  indexed store ->
  NoDup (List.map (fun r => id (res_chunk r)) (searchChunks store query topK)).
Proof.
  intros Hidx. apply indexed_ok in Hidx.
  assert (Hranked : NoDup (List.map (fun r => id (res_chunk r)) (ranked store query))).
  { rewrite (Permutation_map _ (ranked_perm store query)).
    rewrite scored_ids by exact Hidx. apply filter_keys_NoDup, Hidx. }
  unfold searchChunks. rewrite slice_prefix.
  destruct (topK <? 0)%Z; rewrite <- firstn_map;
    eapply sublist_NoDup; try apply sublist_take; exact Hranked.
Qed.

Lemma results_are_distinct_witness :
  indexed Sample.index
  /\ NoDup (List.map (fun r => id (res_chunk r)) (searchChunks Sample.index "password" 5)).
Proof.
  assert (Hidx : indexed Sample.index) by apply indexed_add, indexed_empty.
  split; [exact Hidx|].
  apply (results_are_distinct Sample.index "password" 5 Hidx).
Defined.

Lemma sort_insert_class (x : SearchResult) (l : list SearchResult) (score : Q) :
  List.filter (fun r => Qeq_bool (relevance r) score) (sort_insert by_relevance_desc x l)
  = List.filter (fun r => Qeq_bool (relevance r) score) (x :: l).
Proof.
  induction l as [|y l IH]; [reflexivity|].
  cbn [sort_insert]. unfold by_relevance_desc at 1.
  destruct (Qle_bool _ 0) eqn:E; [reflexivity|].
  cbn [List.filter] in *. rewrite IH.
  destruct (Qeq_bool (relevance x) score) eqn:Ex; [|reflexivity].
  destruct (Qeq_bool (relevance y) score) eqn:Ey; [|reflexivity].
  apply Qeq_bool_iff in Ex, Ey.
  assert (Hc : Qle_bool (relevance y - relevance x) 0 = true)
    by (apply Qle_bool_iff; lra).
  congruence.
Qed.

(** X7. Ties keep the order of the index: among the results of one score,
    the ranking lists the chunks in the order in which the vector store
    iterates over them, that is in the order in which their ids were first
    indexed. *)
Theorem ties_keep_index_order (store : VectorStore) (query : string) (score : Q) :
  List.filter (fun r => Qeq_bool (relevance r) score) (ranked store query)
  = List.filter (fun r => Qeq_bool (relevance r) score)
      (scored (extractKeywords query) store).
Proof.
  unfold ranked. induction (scored (extractKeywords query) store) as [|x l IH].
  - reflexivity.
  - cbn [sort]. rewrite sort_insert_class. cbn [List.filter]. now rewrite IH.
Qed.

End RankingFacts.

(** ** More facts about strings *)

Section MoreStringFacts.
Import Js Text.

Lemma str_app_nil_l (b : string) : "" +:+ b = b.
Proof. reflexivity. Qed.

Lemma str_app_cons (x : ascii) (a b : string) : String x a +:+ b = String x (a +:+ b).
Proof. reflexivity. Qed.

Lemma str_app_assoc (a b c : string) : (a +:+ b) +:+ c = a +:+ (b +:+ c).
Proof.
  induction a as [|x a IH]; [reflexivity|]. now rewrite !str_app_cons, IH.
Qed.

Lemma str_app_nil_r (a : string) : a +:+ "" = a.
Proof.
  induction a as [|x a IH]; [reflexivity|]. now rewrite str_app_cons, IH.
Qed.

Lemma str_app_length (a b : string) :
  String.length (a +:+ b) = String.length a + String.length b.
Proof.
  induction a as [|x a IH]; [reflexivity|]. rewrite str_app_cons. simpl. now rewrite IH.
Qed.

Lemma str_app_inv_head (a x y : string) : a +:+ x = a +:+ y -> x = y.
Proof.
  induction a as [|c a IH]; [tauto|]. rewrite !str_app_cons.
  intros H. injection H as H. now apply IH.
Qed.

(** A trimmed text with some ink starts with a character that is no white
    space. *)
Lemma trimEnd_cons_ink (c : ascii) (r : string) :
  is_space c = false -> exists r', trimEnd (String c r) = String c r'.
Proof.
  intros Hc. simpl. destruct (trimEnd r); rewrite ?Hc; eauto.
Qed.

Lemma trimStart_ink (s : string) :
  has_ink s = true -> exists c r, trimStart s = String c r /\ is_space c = false.
Proof.
  induction s as [|c r IH]; simpl; [discriminate|].
  destruct (is_space c) eqn:E; simpl; [exact IH | eauto].
Qed.

Lemma trim_ink_head (s : string) :
  has_ink s = true -> exists c r, trim s = String c r /\ is_space c = false.
Proof.
  intros Hs. destruct (trimStart_ink s Hs) as (c & r & Heq & Hc).
  unfold trim. rewrite Heq.
  destruct (trimEnd_cons_ink c r Hc) as [r' Hr']. eauto.
Qed.

Lemma trimEnd_cons (c : ascii) (r : string) :
  trimEnd (String c r)
  = match trimEnd r with
    | "" => if is_space c then "" else String c ""
    | String a t => String c (String a t)
    end.
Proof. reflexivity. Qed.

Lemma trimEnd_idempotent (s : string) : trimEnd (trimEnd s) = trimEnd s.
Proof.
  induction s as [|c r IH]; [reflexivity|].
  rewrite (trimEnd_cons c r). destruct (trimEnd r) as [|a t] eqn:Er.
  - destruct (is_space c) eqn:E; [reflexivity|].
    rewrite trimEnd_cons. cbn [trimEnd]. now rewrite E.
  - rewrite trimEnd_cons, IH. reflexivity.
Qed.

Lemma trim_idempotent (s : string) : trim (trim s) = trim s.
Proof.
  destruct (has_ink s) eqn:Hs.
  - destruct (trim_ink_head s Hs) as (c & r & Heq & Hc).
    unfold trim at 1. rewrite Heq. cbn [trimStart]. rewrite Hc.
    rewrite <- Heq. unfold trim. apply trimEnd_idempotent.
  - assert (H : trim s = "") by (apply truthy_false; now rewrite truthy_trim).
    now rewrite H.
Qed.

(** [trimEnd] leaves alone what comes before some ink. *)
Lemma trimEnd_app_ink (x y : string) :
  has_ink y = true -> trimEnd (x +:+ y) = x +:+ trimEnd y.
Proof.
  intros Hy. induction x as [|c x IH]; [reflexivity|].
  rewrite !str_app_cons. cbn [trimEnd].
  rewrite IH. destruct (x +:+ trimEnd y) eqn:E; [|reflexivity].
  exfalso. destruct x; [|discriminate].
  rewrite str_app_nil_l in E. apply trimEnd_empty in E. congruence.
Qed.

Lemma trimEnd_fixed_app (t b : string) :
  trimEnd t = t -> t <> "" -> exists b', trimEnd (t +:+ b) = t +:+ b'.
Proof.
  induction t as [|c r IH]; intros Hfix Hne; [congruence|].
  simpl in Hfix. destruct (trimEnd r) as [|a u] eqn:Er.
  - destruct (is_space c) eqn:E; [discriminate|].
    injection Hfix as <-. rewrite str_app_cons, str_app_nil_l. cbn [trimEnd].
    destruct (trimEnd b); rewrite ?E; eauto.
  - injection Hfix as Hr. destruct IH as [b' Hb']; [congruence | congruence |].
    exists b'. rewrite !str_app_cons. cbn [trimEnd]. rewrite Hb'.
    rewrite <- Hr. rewrite (str_app_cons a u b'). reflexivity.
Qed.

Lemma length_trimStart (s : string) : String.length (trimStart s) <= String.length s.
Proof.
  induction s as [|c r IH]; simpl; [lia|]. destruct (is_space c); simpl; lia.
Qed.

Lemma length_trimEnd (s : string) : String.length (trimEnd s) <= String.length s.
Proof.
  induction s as [|c r IH]; simpl; [lia|].
  destruct (trimEnd r); [destruct (is_space c)|]; simpl in *; lia.
Qed.

Lemma length_trim (s : string) : String.length (trim s) <= String.length s.
Proof.
  unfold trim. pose proof (length_trimEnd (trimStart s)). pose proof (length_trimStart s). lia.
Qed.

Lemma occurs_in_refl (t : string) : occurs_in t t.
Proof. exists "", "". now rewrite str_app_nil_l, str_app_nil_r. Qed.

Lemma occurs_in_app_l (t a b : string) : occurs_in t a -> occurs_in t (a +:+ b).
Proof.
  intros (x & y & ->). exists x, (y +:+ b). now rewrite !str_app_assoc.
Qed.

Lemma occurs_in_app_r (t a b : string) : occurs_in t b -> occurs_in t (a +:+ b).
Proof.
  intros (x & y & ->). exists (a +:+ x), y. now rewrite !str_app_assoc.
Qed.

Lemma occurs_in_ink (t s : string) : occurs_in t s -> has_ink t = true -> has_ink s = true.
Proof.
  intros (x & y & ->) Ht. rewrite !has_ink_app, Ht. now rewrite orb_true_r.
Qed.

(** Trimming a text keeps the trimmed pieces that occur in it. *)
Lemma occurs_in_trim (raw s : string) :
  has_ink raw = true -> occurs_in (trim raw) s -> occurs_in (trim raw) (trim s).
Proof.
  intros Hraw (a & b & ->).
  destruct (trim_ink_head raw Hraw) as (c & r & Heq & Hc).
  assert (Hfix : trimEnd (trim raw) = trim raw) by apply trimEnd_idempotent.
  assert (Hne : trim raw <> "") by (rewrite Heq; discriminate).
  assert (Hink : has_ink (trim raw) = true) by now rewrite has_ink_trim.
  assert (Hstart : exists a', trimStart (a +:+ trim raw +:+ b) = a' +:+ trim raw +:+ b).
  { clear Hfix Hne Hink. induction a as [|x a IH].
    - exists "". rewrite !str_app_nil_l, Heq, str_app_cons. cbn [trimStart].
      now rewrite Hc.
    - rewrite str_app_cons. cbn [trimStart].
      destruct (is_space x); [exact IH|]. now exists (String x a). }
  destruct Hstart as [a' Ha'].
  destruct (trimEnd_fixed_app (trim raw) b Hfix Hne) as [b' Hb'].
  exists a', b'.
  change (trim (a +:+ trim raw +:+ b))
    with (trimEnd (trimStart (a +:+ trim raw +:+ b))).
  rewrite Ha', trimEnd_app_ink, Hb'; [reflexivity|].
  rewrite has_ink_app, Hink. reflexivity.
Qed.

End MoreStringFacts.

(** ** More about the chunks of a document *)

Section MoreChunkFacts.
Import Js DocumentProcessor Reach Text.

(** Induction along a loop, with the elements already visited. *)
Lemma fold_left_visited {A B} (f : A -> B -> A) (P : list B -> A -> Prop)
    (l : list B) (a : A) :
  P [] a ->
  (forall visited x st, x ∈ l -> P visited st -> P (visited ++ [x]) (f st x)) ->
  P l (fold_left f l a).
Proof.
  intros Hinit Hstep.
  assert (H : forall todo visited st,
             (forall x, x ∈ todo -> x ∈ l) -> P visited st ->
             P (visited ++ todo) (fold_left f todo st)).
  { induction todo as [|x todo IH]; intros visited st Hsub HP; simpl.
    - now rewrite app_nil_r.
    - replace (visited ++ x :: todo) with ((visited ++ [x]) ++ todo)
        by now rewrite <- app_assoc.
      apply IH; [intros y Hy; apply Hsub; now right|].
      apply Hstep; [apply Hsub; left | exact HP]. }
  apply (H l [] a); [tauto | exact Hinit].
Qed.

Lemma accumulate_cases md chunkSize overlap st sentence :
  (chunks (accumulate md chunkSize overlap st sentence)
   = chunks st
     ++ [make_chunk md (List.length (chunks st) + 1) (currentChunk st) (page st)]
   /\ currentChunk (accumulate md chunkSize overlap st sentence)
      = join " " (overlap_words overlap (currentChunk st)) +:+ " " +:+ sentence
   /\ currentChunk st <> ""
   /\ (chunkSize < Z.of_nat (String.length (currentChunk st) + String.length sentence))%Z)
  \/ (chunks (accumulate md chunkSize overlap st sentence) = chunks st
      /\ currentChunk (accumulate md chunkSize overlap st sentence)
         = currentChunk st +:+ (if truthy (currentChunk st) then " " else "")
           +:+ sentence
      /\ (currentChunk st = ""
          \/ (Z.of_nat (String.length (currentChunk st) + String.length sentence)
              <= chunkSize)%Z)).
Proof.
  unfold accumulate. destruct (_ && _) eqn:E; [left | right]; cbn [chunks currentChunk].
  - apply andb_true_iff in E. destruct E as [E1 E2].
    apply Z.ltb_lt in E1. apply Nat.ltb_lt in E2.
    repeat split; [|exact E1]. intros H. rewrite H in E2. simpl in E2. lia.
  - repeat split. apply andb_false_iff in E. destruct E as [E|E].
    + right. now apply Z.ltb_ge in E.
    + left. apply Nat.ltb_ge in E. destruct (currentChunk st); [reflexivity|simpl in E; lia].
Qed.

Lemma loop_body_chunks md chunkSize overlap st raw :
  chunks (loop_body md chunkSize overlap st raw)
  = chunks (accumulate md chunkSize overlap st (trim raw))
  /\ currentChunk (loop_body md chunkSize overlap st raw)
     = currentChunk (accumulate md chunkSize overlap st (trim raw)).
Proof. unfold loop_body. now rewrite detect_page_chunks, detect_page_buffer. Qed.

(** X8. The content of every chunk is trimmed: trimming it again changes
    nothing, so no chunk starts or ends with white space. *)
Theorem chunk_contents_are_trimmed (text : string) (md : Metadata)
    (chunkSize overlap : Z) (c : Chunk) :
  c ∈ createChunks text md chunkSize overlap -> trim (content c) = content c.
Proof.
  unfold createChunks, run_loop.
  set (P := fun (_ : list string) (st : Loop) =>
              forall c, c ∈ chunks st -> trim (content c) = content c).
  assert (HP : P (sentences_of text)
                 (fold_left (loop_body md chunkSize overlap) (sentences_of text)
                    loop_init)).
  { apply fold_left_visited.
    - intros x Hx. inversion Hx.
    - intros visited raw st _ Hst x Hx.
      destruct (loop_body_chunks md chunkSize overlap st raw) as [Hc _].
      rewrite Hc in Hx.
      destruct (accumulate_cases md chunkSize overlap st (trim raw))
        as [(Hch & _)|(Hch & _)]; rewrite Hch in Hx; [|now apply Hst].
      apply elem_of_app in Hx. destruct Hx as [Hx|Hx]; [now apply Hst|].
      apply list_elem_of_singleton in Hx. subst x. apply trim_idempotent. }
  unfold finish. destruct (truthy _); [|apply HP].
  intros Hin. apply elem_of_app in Hin. destruct Hin as [Hin|Hin]; [now apply HP|].
  apply list_elem_of_singleton in Hin. subst c. apply trim_idempotent.
Qed.

Lemma chunk_contents_are_trimmed_witness :
  exists c, c ∈ createChunks "One. Two" (Sample.policy_metadata "t") 500 100
    /\ trim (content c) = content c.
Proof.
  eexists. split; [left|].
  apply (chunk_contents_are_trimmed "One. Two" (Sample.policy_metadata "t") 500 100).
  left.
Defined.

(** After the loop, either there was no sentence and nothing has changed,
    or the buffer has some ink and the chunks pushed are fewer than the
    sentences. *)
Lemma run_loop_count (text : string) (md : Metadata) (chunkSize overlap : Z) :
  let st := run_loop md chunkSize overlap (sentences_of text) in
  (sentences_of text = [] /\ st = loop_init)
  \/ (List.length (chunks st) + 1 <= List.length (sentences_of text)
      /\ has_ink (currentChunk st) = true).
Proof.
  unfold run_loop.
  apply (fold_left_visited (loop_body md chunkSize overlap)
           (fun visited st =>
              (visited = [] /\ st = loop_init)
              \/ (List.length (chunks st) + 1 <= List.length visited
                  /\ has_ink (currentChunk st) = true))); [left; tauto|].
  intros visited raw st Hraw Hst. right.
  apply sentences_of_ink in Hraw. destruct Hraw as [Hraw _].
  destruct (loop_body_chunks md chunkSize overlap st raw) as [Hc Hb].
  rewrite Hc, Hb, length_app. cbn [List.length].
  assert (Hsent : has_ink (trim raw) = true) by now rewrite has_ink_trim.
  destruct (accumulate_cases md chunkSize overlap st (trim raw))
    as [(Hch & Hcur & Hne & _)|(Hch & Hcur & _)]; rewrite Hch, Hcur.
  - rewrite !has_ink_app, Hsent, !orb_true_r. split; [|reflexivity].
    rewrite length_app. cbn [List.length].
    destruct Hst as [[_ ->]|[Hlen _]]; [now simpl in Hne | lia].
  - rewrite !has_ink_app, Hsent, !orb_true_r. split; [|reflexivity].
    destruct Hst as [[_ ->]|[Hlen _]]; simpl; lia.
Qed.

(** X9. A text never gives more chunks than it has sentences, and it gives
    no chunk exactly when it has no sentence (no fragment between
    punctuation marks with a character other than white space). *)
Theorem chunk_count_bounded (text : string) (md : Metadata) (chunkSize overlap : Z) :
  List.length (createChunks text md chunkSize overlap)
  <= List.length (sentences_of text)
  /\ (createChunks text md chunkSize overlap = [] <-> sentences_of text = []).
Proof.
  unfold createChunks, finish. rewrite truthy_trim.
  destruct (run_loop_count text md chunkSize overlap) as [[Hnil ->]|[Hlen Hink]].
  - rewrite Hnil. simpl. split; [lia | tauto].
  - rewrite Hink, length_app. cbn [List.length]. split; [lia|].
    split.
    + intros H. apply (f_equal (@List.length _)) in H.
      rewrite length_app in H. simpl in H. lia.
    + intros H. rewrite H in Hlen. simpl in Hlen. lia.
Qed.

End MoreChunkFacts.

(** ** Chunks and sentences *)

Section ChunkCoverage.
Import Js DocumentProcessor Reach Text.

(** X10. No sentence is lost by the chunker: every sentence of the text,
    trimmed, occurs in the content of at least one chunk, whatever
    [chunkSize] and [overlap] are. *)
Theorem no_sentence_is_lost (text : string) (md : Metadata) (chunkSize overlap : Z)
    (raw : string) :
  raw ∈ sentences_of text ->
  exists c, c ∈ createChunks text md chunkSize overlap
    /\ occurs_in (trim raw) (content c).
Proof.
  intros Hraw. unfold createChunks, run_loop.
  set (P := fun (visited : list string) (st : Loop) =>
              forall s, s ∈ visited ->
                has_ink s = true
                /\ ((exists c, c ∈ chunks st /\ occurs_in (trim s) (content c))
                    \/ occurs_in (trim s) (currentChunk st))).
  assert (HP : P (sentences_of text)
                 (fold_left (loop_body md chunkSize overlap) (sentences_of text)
                    loop_init)).
  { apply fold_left_visited.
    - intros s Hs. inversion Hs.
    - intros visited x st Hx Hst s Hs.
      apply sentences_of_ink in Hx. destruct Hx as [Hx _].
      destruct (loop_body_chunks md chunkSize overlap st x) as [Hc Hb].
      rewrite Hc, Hb.
      apply elem_of_app in Hs.
      destruct (accumulate_cases md chunkSize overlap st (trim x))
        as [(Hch & Hcur & _)|(Hch & Hcur & _)]; rewrite Hch, Hcur.
      + destruct Hs as [Hs|Hs].
        * destruct (Hst s Hs) as [Hink [(c & Hin & Hocc)|Hocc]];
            (split; [exact Hink|]); left.
          -- exists c. split; [apply elem_of_app; now left | exact Hocc].
          -- eexists. split; [apply elem_of_app; right; left|].
             cbn [content make_chunk]. now apply occurs_in_trim.
        * apply list_elem_of_singleton in Hs. subst s. split; [exact Hx|]. right.
          apply occurs_in_app_r, occurs_in_app_r, occurs_in_refl.
      + destruct Hs as [Hs|Hs].
        * destruct (Hst s Hs) as [Hink [Hl|Hocc]]; (split; [exact Hink|]);
            [now left | right].
          now apply occurs_in_app_l.
        * apply list_elem_of_singleton in Hs. subst s. split; [exact Hx|]. right.
          apply occurs_in_app_r, occurs_in_app_r, occurs_in_refl. }
  destruct (HP raw Hraw) as [Hink [(c & Hin & Hocc)|Hocc]].
  - exists c. split; [|exact Hocc]. unfold finish.
    destruct (truthy _); [apply elem_of_app; now left | exact Hin].
  - unfold finish. rewrite truthy_trim.
    assert (Hcur : has_ink (currentChunk
                     (fold_left (loop_body md chunkSize overlap) (sentences_of text)
                        loop_init)) = true).
    { eapply occurs_in_ink; [exact Hocc | now rewrite has_ink_trim]. }
    rewrite Hcur. eexists. split; [apply elem_of_app; right; left|].
    cbn [content make_chunk]. now apply occurs_in_trim.
Qed.

Lemma no_sentence_is_lost_witness :
  " Two" ∈ sentences_of "One. Two"
  /\ exists c, c ∈ createChunks "One. Two" (Sample.policy_metadata "t") 3 100
       /\ occurs_in (trim " Two") (content c).
Proof.
  assert (Hin : " Two" ∈ sentences_of "One. Two") by (vm_compute; right; left).
  split; [exact Hin|].
  apply (no_sentence_is_lost "One. Two" (Sample.policy_metadata "t") 3 100 " Two" Hin).
Defined.

End ChunkCoverage.

(** ** Texts that give one chunk *)

Section SingleChunk.
Import Js DocumentProcessor Reach Text.

Lemma split_runs_aux_no_separator (sep : ascii -> bool) (s cur : string) (b : bool) :
  all_chars (fun c => negb (sep c)) s = true ->
  split_runs_aux sep s cur b = [cur +:+ s].
Proof.
  revert cur b. induction s as [|c r IH]; intros cur b Hs.
  - simpl. now rewrite str_app_nil_r.
  - simpl in Hs. apply andb_true_iff in Hs. destruct Hs as [Hc Hr].
    apply negb_true_iff in Hc. cbn [split_runs_aux]. rewrite Hc.
    rewrite IH by exact Hr. now rewrite str_app_assoc.
Qed.

(** X11. A text without any of the marks [.], [!] and [?] that has some
    character other than white space is one sentence and gives exactly one
    chunk, whatever [chunkSize] and [overlap] are: its content is the trimmed
    text, its number is 1, and its page is 1, or 2 when the trimmed text has
    more than 300 words. *)
Theorem unpunctuated_text_is_one_chunk (text : string) (md : Metadata)
    (chunkSize overlap : Z) :
  all_chars (fun c => negb (is_terminator c)) text = true ->
  has_ink text = true ->
  exists c, createChunks text md chunkSize overlap = [c]
    /\ content c = trim text
    /\ id c = fileName md +:+ "_chunk_1"
    /\ chunkIndex (metadata c) = 1
    /\ pageNum (metadata c)
       = if (300 <? List.length (split_char " " (trim text)))%nat then 2 else 1.
Proof.
  intros Hno Hink.
  assert (Hs : sentences_of text = [text]).
  { unfold sentences_of, split_runs. rewrite split_runs_aux_no_separator by exact Hno.
    rewrite str_app_nil_l. simpl. now rewrite trim_length_pos, Hink. }
  unfold createChunks, run_loop. rewrite Hs. cbn [fold_left].
  unfold loop_body.
  assert (Hacc : accumulate md chunkSize overlap loop_init (trim text)
                 = {| chunks := []; currentChunk := trim text; page := 1 |}).
  { unfold accumulate. cbn [loop_init currentChunk chunks page String.length Nat.ltb].
    rewrite andb_false_r. reflexivity. }
  rewrite Hacc. unfold detect_page. cbn [currentChunk].
  destruct (300 <? _)%nat; unfold finish; cbn [currentChunk chunks page];
    rewrite truthy_trim, has_ink_trim, Hink; eexists;
    (split; [reflexivity|]); cbn [make_chunk content id metadata chunkIndex pageNum];
    rewrite trim_idempotent; repeat split; reflexivity.
Qed.

Lemma unpunctuated_text_is_one_chunk_witness :
  all_chars (fun c => negb (is_terminator c)) " no full stop here " = true
  /\ has_ink " no full stop here " = true
  /\ exists c, createChunks " no full stop here " (Sample.policy_metadata "t") 5 100 = [c]
       /\ content c = trim " no full stop here ".
Proof.
  assert (H1 : all_chars (fun c => negb (is_terminator c)) " no full stop here " = true)
    by reflexivity.
  assert (H2 : has_ink " no full stop here " = true) by reflexivity.
  split; [exact H1|]. split; [exact H2|].
  destruct (unpunctuated_text_is_one_chunk " no full stop here "
              (Sample.policy_metadata "t") 5 100 H1 H2) as (c & Hc & Hcontent & _).
  exists c. split; [exact Hc | exact Hcontent].
Defined.

End SingleChunk.

(** ** Documents shorter than a chunk *)

Section ShortDocuments.
Import Js DocumentProcessor Reach Text.

Lemma join_cons (sep x : string) (l : list string) :
  l <> [] -> join sep (x :: l) = x +:+ sep +:+ join sep l.
Proof. destruct l; [congruence | reflexivity]. Qed.

Lemma join_cons_length (x : string) (l : list string) :
  String.length x <= String.length (join " " (x :: l))
  /\ String.length (join " " l) <= String.length (join " " (x :: l)).
Proof.
  destruct l as [|y l]; [simpl; lia|].
  rewrite join_cons by discriminate. rewrite !str_app_length. simpl. lia.
Qed.

Lemma split_runs_aux_nonempty (sep : ascii -> bool) (s cur : string) (b : bool) :
  split_runs_aux sep s cur b <> [].
Proof.
  revert cur b. induction s as [|c r IH]; intros cur b; simpl; [discriminate|].
  destruct (sep c); [destruct b|]; [apply IH | discriminate | apply IH].
Qed.

(** The pieces of a split, joined by single spaces, are no longer than the
    text. *)
Lemma split_runs_aux_join_length (sep : ascii -> bool) (s cur : string) (b : bool) :
  String.length (join " " (split_runs_aux sep s cur b))
  <= String.length cur + String.length s.
Proof.
  revert cur b. induction s as [|c r IH]; intros cur b; cbn [split_runs_aux].
  - simpl. lia.
  - destruct (sep c).
    + destruct b.
      * specialize (IH cur true). simpl. lia.
      * rewrite join_cons by apply split_runs_aux_nonempty.
        rewrite !str_app_length. specialize (IH "" true). simpl in *. lia.
    + specialize (IH (cur +:+ String c "") false).
      rewrite str_app_length in IH. simpl in *. lia.
Qed.

Lemma filter_join_length (f : string -> bool) (l : list string) :
  String.length (join " " (List.filter f l)) <= String.length (join " " l).
Proof.
  induction l as [|x l IH]; [simpl; lia|].
  pose proof (join_cons_length x l) as [Hx Hl]. cbn [List.filter].
  destruct (f x); [|exact (Nat.le_trans _ _ _ IH Hl)].
  destruct (List.filter f l) as [|y fl] eqn:E; [exact Hx|].
  destruct l as [|z l]; [discriminate|].
  rewrite (join_cons " " x (y :: fl)), (join_cons " " x (z :: l)) by discriminate.
  rewrite !str_app_length. lia.
Qed.

Lemma map_trim_join_length (l : list string) :
  String.length (join " " (List.map trim l)) <= String.length (join " " l).
Proof.
  induction l as [|x l IH]; [simpl; lia|].
  pose proof (length_trim x) as Hx. cbn [List.map].
  destruct l as [|z l]; [exact Hx|].
  cbn [List.map] in *.
  rewrite (join_cons " " (trim x) (trim z :: List.map trim l)),
    (join_cons " " x (z :: l)) by discriminate.
  rewrite !str_app_length. lia.
Qed.

Lemma sentences_join_length (text : string) :
  String.length (join " " (List.map trim (sentences_of text))) <= String.length text.
Proof.
  pose proof (map_trim_join_length (sentences_of text)) as H1.
  pose proof (filter_join_length (fun s => (0 <? String.length (trim s))%nat)
                (split_runs is_terminator text)) as H2.
  pose proof (split_runs_aux_join_length is_terminator text "" false) as H3.
  unfold sentences_of, split_runs in *. simpl in H3. lia.
Qed.

Lemma join_snoc (l : list string) (t : string) :
  join " " (l ++ [t])
  = match l with [] => t | _ => join " " l +:+ " " +:+ t end.
Proof.
  induction l as [|x l IH]; [reflexivity|].
  cbn [app]. rewrite join_cons by (destruct l; discriminate).
  rewrite IH. destruct l as [|y l]; [reflexivity|].
  rewrite (join_cons " " x (y :: l)) by discriminate. now rewrite !str_app_assoc.
Qed.

Lemma join_app_length (l1 l2 : list string) :
  String.length (join " " l1) <= String.length (join " " (l1 ++ l2)).
Proof.
  induction l1 as [|x l1 IH]; [simpl; lia|].
  destruct l1 as [|y l1].
  - cbn [app]. apply join_cons_length.
  - cbn [app] in *.
    rewrite (join_cons " " x (y :: l1)), (join_cons " " x (y :: l1 ++ l2))
      by discriminate.
    rewrite !str_app_length. lia.
Qed.

Lemma join_ink (l : list string) :
  l <> [] -> (forall x, x ∈ l -> has_ink x = true) -> has_ink (join " " l) = true.
Proof.
  destruct l as [|x l]; [congruence|]. intros _ Hall.
  destruct l as [|y l]; [apply Hall; left|].
  rewrite join_cons by discriminate. rewrite has_ink_app, (Hall x) by left. reflexivity.
Qed.

(** Sentences joined by single spaces have no white space at either end. *)
Lemma trim_join_sentences (l : list string) :
  l <> [] -> (forall x, x ∈ l -> has_ink x = true) ->
  trim (join " " (List.map trim l)) = join " " (List.map trim l).
Proof.
  intros Hne Hall.
  assert (Hend : forall l, l <> [] -> (forall x, x ∈ l -> has_ink x = true) ->
            trimEnd (join " " (List.map trim l)) = join " " (List.map trim l)).
  { clear. induction l as [|x l IH]; [congruence|]. intros _ Hall.
    destruct l as [|y l]; [apply trimEnd_idempotent|].
    cbn [List.map] in *. rewrite join_cons by discriminate.
    rewrite <- str_app_assoc, trimEnd_app_ink.
    - rewrite IH; [reflexivity | discriminate | intros z Hz; apply Hall; now right].
    - apply (join_ink (trim y :: List.map trim l)); [discriminate|].
      intros z Hz. change (z ∈ List.map trim (y :: l)) in Hz.
      apply list_elem_of_In, in_map_iff in Hz. destruct Hz as (u & <- & Hu).
      rewrite has_ink_trim. apply Hall. right. now apply list_elem_of_In. }
  unfold trim at 1.
  destruct l as [|x l]; [congruence|].
  assert (Hx : has_ink x = true) by (apply Hall; left).
  destruct (trim_ink_head x Hx) as (c & r & Heq & Hc).
  assert (Hstart : trimStart (join " " (List.map trim (x :: l)))
                   = join " " (List.map trim (x :: l))).
  { cbn [List.map]. destruct (List.map trim l) as [|y ml].
    - simpl. rewrite Heq. simpl. now rewrite Hc.
    - rewrite join_cons by discriminate. rewrite Heq, str_app_cons.
      simpl. now rewrite Hc. }
  rewrite Hstart. now apply Hend.
Qed.

(** Induction along a loop, with the elements visited and those to come. *)
Lemma fold_left_split {A B} (f : A -> B -> A) (P : list B -> A -> Prop)
    (l : list B) (a : A) :
  P [] a ->
  (forall visited x rest st,
      l = visited ++ x :: rest -> P visited st -> P (visited ++ [x]) (f st x)) ->
  P l (fold_left f l a).
Proof.
  intros Hinit Hstep.
  assert (H : forall todo visited st,
             l = visited ++ todo -> P visited st ->
             P (visited ++ todo) (fold_left f todo st)).
  { induction todo as [|x todo IH]; intros visited st Heq HP; simpl.
    - now rewrite app_nil_r.
    - replace (visited ++ x :: todo) with ((visited ++ [x]) ++ todo)
        by now rewrite <- app_assoc.
      apply IH; [now rewrite <- app_assoc|].
      now apply (Hstep visited x todo). }
  apply (H l [] a); [reflexivity | exact Hinit].
Qed.

(** X12. A text that is no longer than [chunkSize] is never split: if it has
    a sentence at all, it gives exactly one chunk, whose content is the
    trimmed sentences joined by single spaces (the punctuation marks are
    gone), whatever [overlap] is. *)
Theorem short_document_is_one_chunk (text : string) (md : Metadata)
    (chunkSize overlap : Z) :
  (Z.of_nat (String.length text) <= chunkSize)%Z ->
  sentences_of text <> [] ->
  exists c, createChunks text md chunkSize overlap = [c]
    /\ content c = join " " (List.map trim (sentences_of text))
    /\ id c = fileName md +:+ "_chunk_1".
Proof.
  intros Hshort Hne.
  pose proof (sentences_join_length text) as Htotal.
  assert (Hink : forall x, x ∈ sentences_of text -> has_ink x = true)
    by (intros x Hx; now apply sentences_of_ink in Hx).
  unfold createChunks, run_loop.
  set (P := fun (visited : list string) (st : Loop) =>
              chunks st = [] /\ currentChunk st = join " " (List.map trim visited)).
  assert (HP : P (sentences_of text)
                 (fold_left (loop_body md chunkSize overlap) (sentences_of text)
                    loop_init)).
  { apply fold_left_split; [split; reflexivity|].
    intros visited x rest st Heq [Hch Hcur].
    destruct (loop_body_chunks md chunkSize overlap st x) as [Hc Hb].
    unfold P. rewrite Hc, Hb.
    assert (Hfit : String.length (join " " (List.map trim (visited ++ [x])))
                   <= String.length text).
    { rewrite Heq in Htotal.
      replace (visited ++ x :: rest) with ((visited ++ [x]) ++ rest) in Htotal
        by now rewrite <- app_assoc.
      rewrite map_app in Htotal.
      pose proof (join_app_length (List.map trim (visited ++ [x])) (List.map trim rest)).
      lia. }
    rewrite map_app in Hfit |- *. cbn [List.map] in *. rewrite join_snoc in Hfit |- *.
    destruct (accumulate_cases md chunkSize overlap st (trim x))
      as [(_ & _ & Hcne & Hbig)|(Hch' & Hcur' & _)].
    - exfalso. rewrite Hcur in Hcne, Hbig.
      destruct (List.map trim visited) as [|y ml] eqn:E; [now simpl in Hcne|].
      rewrite !str_app_length in Hfit. lia.
    - rewrite Hch', Hcur', Hch, Hcur. split; [reflexivity|].
      destruct (List.map trim visited) as [|y ml] eqn:E; [reflexivity|].
      assert (Hvis : has_ink (join " " (y :: ml)) = true).
      { rewrite <- E. destruct visited as [|v vs]; [discriminate|].
        apply (join_ink (List.map trim (v :: vs))); [discriminate|].
        intros z Hz. apply list_elem_of_In, in_map_iff in Hz.
        destruct Hz as (u & <- & Hu). rewrite has_ink_trim. apply Hink.
        rewrite Heq. apply elem_of_app. left. now apply list_elem_of_In. }
      now rewrite (truthy_has_ink _ Hvis). }
  destruct HP as [Hch Hcur]. unfold finish. rewrite Hch, Hcur.
  rewrite trim_join_sentences by assumption.
  rewrite truthy_has_ink.
  - eexists. split; [reflexivity|]. cbn [make_chunk content id].
    split; [now apply trim_join_sentences | reflexivity].
  - apply join_ink.
    + destruct (sentences_of text); [congruence | discriminate].
    + intros z Hz. apply list_elem_of_In, in_map_iff in Hz.
      destruct Hz as (u & <- & Hu). rewrite has_ink_trim. apply Hink.
      now apply list_elem_of_In.
Qed.

Lemma short_document_is_one_chunk_witness :
  (Z.of_nat (String.length "Reset your password. Use the portal.") <= 500)%Z
  /\ sentences_of "Reset your password. Use the portal." <> []
  /\ exists c, createChunks "Reset your password. Use the portal."
                 (Sample.policy_metadata "t") 500 100 = [c]
       /\ content c
          = join " " (List.map trim (sentences_of "Reset your password. Use the portal.")).
Proof.
  assert (H1 : (Z.of_nat (String.length "Reset your password. Use the portal.") <= 500)%Z)
    by (vm_compute; discriminate).
  assert (H2 : sentences_of "Reset your password. Use the portal." <> [])
    by (vm_compute; discriminate).
  split; [exact H1|]. split; [exact H2|].
  destruct (short_document_is_one_chunk "Reset your password. Use the portal."
              (Sample.policy_metadata "t") 500 100 H1 H2) as (c & Hc & Hcontent & _).
  exists c. split; [exact Hc | exact Hcontent].
Defined.

End ShortDocuments.

(** ** Chunk ids and the index *)

Section IdsAndIndex.
Import Js DocumentProcessor Reach Text Retag.

Lemma show_nat_inj (n m : nat) : show_nat n = show_nat m -> n = m.
Proof.
  unfold show_nat. intros H.
  apply (f_equal NilEmpty.uint_of_string) in H. rewrite !NilEmpty.usu in H.
  injection H as H. apply (f_equal Nat.of_uint) in H.
  now rewrite !DecimalNat.Unsigned.of_to in H.
Qed.

Lemma chunk_id_inj (name : string) (n m : nat) :
  name +:+ "_chunk_" +:+ show_nat n = name +:+ "_chunk_" +:+ show_nat m -> n = m.
Proof.
  intros H. apply str_app_inv_head, str_app_inv_head in H. now apply show_nat_inj.
Qed.

(** Chunks numbered by their position under one file name have pairwise
    distinct ids. *)
Lemma numbered_ids_NoDup (name : string) (l : list Chunk) :
  (forall i c, l !! i = Some c -> id c = name +:+ "_chunk_" +:+ show_nat (i + 1)) ->
  NoDup (List.map id l).
Proof.
  intros Hnum. change (List.map id l) with (id <$> l).
  apply NoDup_alt. intros i j x Hi Hj.
  rewrite list_lookup_fmap in Hi, Hj.
  destruct (l !! i) as [ci|] eqn:Ei; [|discriminate].
  destruct (l !! j) as [cj|] eqn:Ej; [|discriminate].
  simpl in Hi, Hj. injection Hi as Hi. injection Hj as Hj.
  pose proof (Hnum _ _ Ei) as Hidi. pose proof (Hnum _ _ Ej) as Hidj.
  assert (H : i + 1 = j + 1) by (apply (chunk_id_inj name); congruence).
  lia.
Qed.

(** X13. Within one document the chunk ids are pairwise distinct: the text
    after "_chunk_" is the decimal numeral of the chunk's number, and two
    numbers have different numerals. *)
Theorem chunk_ids_are_distinct (text : string) (md : Metadata) (chunkSize overlap : Z) :
  NoDup (List.map id (createChunks text md chunkSize overlap)).
Proof.
  unfold createChunks.
  destruct (finish_inv md _ (loop_inv_run md chunkSize overlap text))
    as (st & Hinv & ->).
  apply (numbered_ids_NoDup (fileName md)). intros i c Hi.
  now destruct (inv_chunks _ _ Hinv _ _ Hi) as (_ & Hid & _).
Qed.

Lemma addToVectorStore_cons (c : Chunk) (cs : list Chunk) (store : VectorStore) :
  addToVectorStore (c :: cs) store
  = addToVectorStore cs (map_set (id c) (index_entry c) store).
Proof. reflexivity. Qed.

Lemma addToVectorStore_other (cs : list Chunk) (store : VectorStore) (k : string) :
  k ∉ List.map id cs -> map_get k (addToVectorStore cs store) = map_get k store.
Proof.
  revert store. induction cs as [|c cs IH]; intros store Hk; [reflexivity|].
  rewrite addToVectorStore_cons, IH.
  - apply map_get_set_ne. intros H. apply Hk. rewrite <- H. left.
  - intros H. apply Hk. now right.
Qed.

(** X14. Looking up what was indexed: after a batch of chunks with pairwise
    distinct ids is added to a store, the id of each chunk of the batch maps
    to the entry of that chunk (the chunk itself and the keywords of its
    content), and every other key maps to what it mapped to before. *)
Theorem indexed_chunks_are_found (cs : list Chunk) (store : VectorStore) :
  NoDup (List.map id cs) ->
  (forall c, c ∈ cs ->
     map_get (id c) (addToVectorStore cs store)
     = Some {| chunk := c; keywords := extractKeywords (content c);
               embedding := simpleEmbedding (content c) |})
  /\ (forall k, k ∉ List.map id cs ->
        map_get k (addToVectorStore cs store) = map_get k store).
Proof.
  intros Hnd. split; [|intros k Hk; now apply addToVectorStore_other].
  revert store. induction cs as [|c0 cs IH]; intros store c Hc; [inversion Hc|].
  cbn [List.map] in Hnd. apply NoDup_cons in Hnd. destruct Hnd as [Hfresh Hnd].
  rewrite addToVectorStore_cons.
  apply elem_of_cons in Hc. destruct Hc as [->|Hc].
  - rewrite addToVectorStore_other by exact Hfresh. apply map_get_set_eq.
  - now apply IH.
Qed.

Lemma indexed_chunks_are_found_witness :
  NoDup (List.map id [Sample.chunk_v1])
  /\ map_get (id Sample.chunk_v1) (addToVectorStore [Sample.chunk_v1] [])
     = Some {| chunk := Sample.chunk_v1;
               keywords := extractKeywords (content Sample.chunk_v1);
               embedding := simpleEmbedding (content Sample.chunk_v1) |}.
Proof.
  assert (Hnd : NoDup (List.map id [Sample.chunk_v1])) by apply NoDup_singleton.
  split; [exact Hnd|].
  apply (indexed_chunks_are_found [Sample.chunk_v1] [] Hnd). left.
Defined.

Lemma addToVectorStore_keys_fresh (cs : list Chunk) (store : VectorStore) :
  NoDup (List.map id cs) ->
  (forall c, c ∈ cs -> id c ∉ List.map fst store) ->
  List.map fst (addToVectorStore cs store) = List.map fst store ++ List.map id cs.
Proof.
  revert store. induction cs as [|c cs IH]; intros store Hnd Hfresh.
  - simpl. now rewrite app_nil_r.
  - cbn [List.map] in Hnd. apply NoDup_cons in Hnd. destruct Hnd as [Hc Hnd].
    rewrite addToVectorStore_cons, IH.
    + rewrite map_set_keys, bool_decide_eq_false_2 by (apply Hfresh; left).
      cbn [List.map]. now rewrite <- app_assoc.
    + exact Hnd.
    + intros c' Hc'. rewrite map_set_keys, bool_decide_eq_false_2 by (apply Hfresh; left).
      intros H. apply elem_of_app in H. destruct H as [H|H].
      * apply (Hfresh c'); [now right | exact H].
      * apply list_elem_of_singleton in H. apply Hc. rewrite <- H.
        apply list_elem_of_In, in_map, list_elem_of_In, Hc'.
Qed.

Lemma addToVectorStore_keys_present (cs : list Chunk) (store : VectorStore) :
  (forall c, c ∈ cs -> id c ∈ List.map fst store) ->
  List.map fst (addToVectorStore cs store) = List.map fst store.
Proof.
  revert store. induction cs as [|c cs IH]; intros store Hin; [reflexivity|].
  assert (Hk : List.map fst (map_set (id c) (index_entry c) store) = List.map fst store).
  { rewrite map_set_keys, bool_decide_eq_true_2; [reflexivity|]. apply Hin. left. }
  rewrite addToVectorStore_cons, IH; [exact Hk|].
  intros c' Hc'. rewrite Hk. apply Hin. now right.
Qed.

Lemma addToVectorStore_length_le (cs : list Chunk) (store : VectorStore) :
  List.length (addToVectorStore cs store) <= List.length store + List.length cs.
Proof.
  revert store. induction cs as [|c cs IH]; intros store; [simpl; lia|].
  rewrite addToVectorStore_cons. specialize (IH (map_set (id c) (index_entry c) store)).
  assert (H : List.length (map_set (id c) (index_entry c) store) <= S (List.length store)).
  { rewrite <- (length_map fst (map_set _ _ _)), map_set_keys.
    destruct (bool_decide _); rewrite ?length_app, !length_map; simpl; lia. }
  simpl. lia.
Qed.

(** The chunks of a text for two metadata differ by the metadata only. *)
Lemma createChunks_carry (text : string) (md md' : Metadata) (chunkSize overlap : Z) :
  createChunks text md' chunkSize overlap
  = List.map (carry md') (createChunks text md chunkSize overlap).
Proof.
  unfold createChunks, run_loop.
  assert (Hmk : forall n buf pg, carry md' (make_chunk md n buf pg) = make_chunk md' n buf pg)
    by reflexivity.
  assert (H : forall raws st st',
             chunks st' = List.map (carry md') (chunks st) ->
             currentChunk st' = currentChunk st -> page st' = page st ->
             let r := fold_left (loop_body md chunkSize overlap) raws st in
             let r' := fold_left (loop_body md' chunkSize overlap) raws st' in
             chunks r' = List.map (carry md') (chunks r)
             /\ currentChunk r' = currentChunk r /\ page r' = page r).
  { induction raws as [|raw raws IH]; intros st st' Hc Hb Hp; [simpl; auto|].
    cbn [fold_left]. apply IH; unfold loop_body, detect_page, accumulate;
      rewrite Hb, Hp, Hc, ?length_map;
      destruct (_ && _); cbn [currentChunk chunks page];
      destruct (_ <? _)%nat; cbn [currentChunk chunks page];
      rewrite ?map_app; cbn [List.map]; rewrite ?Hmk; reflexivity. }
  destruct (H (sentences_of text) loop_init loop_init eq_refl eq_refl eq_refl)
    as (Hc & Hb & Hp).
  unfold finish. rewrite Hb, Hp, Hc, length_map.
  destruct (truthy _); [|reflexivity].
  rewrite map_app. cbn [List.map]. now rewrite Hmk.
Qed.

Lemma createChunks_id_of_index (text : string) (md : Metadata) (chunkSize overlap : Z)
    (c : Chunk) :
  c ∈ createChunks text md chunkSize overlap ->
  id c = fileName md +:+ "_chunk_" +:+ show_nat (chunkIndex (metadata c)).
Proof.
  unfold createChunks.
  destruct (finish_inv md _ (loop_inv_run md chunkSize overlap text))
    as (st & Hinv & ->).
  intros Hc. apply list_elem_of_lookup in Hc. destruct Hc as [i Hi].
  destruct (inv_chunks _ _ Hinv _ _ Hi) as (_ & Hid & Hidx & _).
  now rewrite Hidx.
Qed.

Lemma createChunks_ids (text : string) (md md' : Metadata) (chunkSize overlap : Z) :
  fileName md' = fileName md ->
  List.map id (createChunks text md' chunkSize overlap)
  = List.map id (createChunks text md chunkSize overlap).
Proof.
  intros Hname. rewrite (createChunks_carry text md md'), map_map.
  apply map_ext_in. intros c Hc. apply list_elem_of_In in Hc.
  rewrite (createChunks_id_of_index _ _ _ _ _ Hc). cbn. now rewrite Hname.
Qed.

End IdsAndIndex.

(** ** Documents and statistics *)

Section DocumentStats.
Import Js Env DocumentProcessor Reach Batch.

Lemma processDocument_ink (now : string) (doc : Doc) (this : State) :
  has_ink (in_content doc) = true ->
  run (processDocument now doc) this = (record_document now doc this, Normal tt).
Proof. intros H. unfold processDocument. now rewrite truthy_trim, H. Qed.

(** X15. One document in a new engine: the statistics show one document,
    and the total number of chunks is the number of chunks of that document,
    which is at most its number of sentences (it is 0 for a text made of
    punctuation marks only, which still counts as a document). *)
Theorem single_document_stats (now : string) (doc : Doc) :
  has_ink (in_content doc) = true ->
  exists n,
    stats_of (fst (run (processDocument now doc) new))
    = {| totalDocuments := 1; totalChunks := n;
         stat_documents := [{| stat_fileName := in_fileName doc; stat_chunks := n |}] |}
    /\ n <= List.length (sentences_of (in_content doc)).
Proof.
  intros Hink. rewrite processDocument_ink by exact Hink.
  set (md := {| fileName := in_fileName doc; fileType := extension (in_fileName doc);
                processedAt := now |}).
  set (cs := createChunks (in_content doc) md default_chunkSize default_overlap).
  exists (List.length cs).
  assert (Hkeys : List.map fst (addToVectorStore cs []) = List.map id cs).
  { rewrite addToVectorStore_keys_fresh; [reflexivity | | intros c _ H; inversion H].
    unfold cs, createChunks.
    destruct (finish_inv md _ (loop_inv_run md default_chunkSize default_overlap
                                 (in_content doc))) as (st & Hinv & ->).
    apply (numbered_ids_NoDup (fileName md)). intros i c Hi.
    now destruct (inv_chunks _ _ Hinv _ _ Hi) as (_ & Hid & _). }
  split.
  - unfold stats_of, record_document. cbn [fst new vectorStore documents].
    fold md. fold cs. cbn [List.length app List.map doc_fileName doc_chunks].
    rewrite <- (length_map fst (addToVectorStore cs [])), Hkeys, length_map. reflexivity.
  - subst cs. unfold createChunks, finish. rewrite truthy_trim.
    destruct (run_loop_count (in_content doc) md default_chunkSize default_overlap)
      as [[Hnil ->]|[Hlen Hcur]].
    + rewrite Hnil. simpl. lia.
    + rewrite Hcur, length_app. simpl. lia.
Qed.

Lemma single_document_stats_witness :
  has_ink "?!..." = true
  /\ stats_of (fst (run (processDocument "t" {| in_fileName := "marks.txt";
                                                in_content := "?!..." |}) new))
     = {| totalDocuments := 1; totalChunks := 0;
          stat_documents := [{| stat_fileName := "marks.txt"; stat_chunks := 0 |}] |}.
Proof.
  assert (Hink : has_ink "?!..." = true) by reflexivity.
  split; [exact Hink|].
  destruct (single_document_stats "t" {| in_fileName := "marks.txt";
                                          in_content := "?!..." |} Hink)
    as (n & Hstats & Hn).
  rewrite Hstats. assert (n = 0) by (vm_compute in Hn; lia). now subst n.
Defined.

Lemma map_set_keys_mono (k k0 : string) (v : Entry) (store : VectorStore) :
  k = k0 \/ k ∈ List.map fst store -> k ∈ List.map fst (map_set k0 v store).
Proof.
  rewrite map_set_keys. destruct (bool_decide (k0 ∈ List.map fst store)) eqn:E.
  - apply bool_decide_eq_true_1 in E. intros [->|H]; assumption.
  - intros [->|H]; apply elem_of_app; [right; left | now left].
Qed.

Lemma addToVectorStore_keys_mono (cs : list Chunk) (store : VectorStore) (k : string) :
  k ∈ List.map fst store \/ k ∈ List.map id cs ->
  k ∈ List.map fst (addToVectorStore cs store).
Proof.
  revert store. induction cs as [|c cs IH]; intros store H.
  - destruct H as [H|H]; [exact H | inversion H].
  - rewrite addToVectorStore_cons. apply IH.
    destruct H as [H|H].
    + left. apply map_set_keys_mono. now right.
    + cbn [List.map] in H. apply elem_of_cons in H. destruct H as [->|H].
      * left. apply map_set_keys_mono. now left.
      * now right.
Qed.

Lemma addToVectorStore_ids_present (cs : list Chunk) (store : VectorStore) (c : Chunk) :
  c ∈ cs -> id c ∈ List.map fst (addToVectorStore cs store).
Proof.
  intros Hc. apply addToVectorStore_keys_mono. right.
  apply list_elem_of_In, in_map, list_elem_of_In, Hc.
Qed.

(** X16. Processing the same document again appends a second record but
    indexes no new chunk: the chunk ids depend on the file name and on the
    position only, so the second pass overwrites the entries of the first.
    The number of documents grows by one each time, the number of chunks
    and the order of the keys stay. *)
Theorem reingesting_double_counts (now1 now2 : string) (doc : Doc) (this : State) :
  has_ink (in_content doc) = true ->
  let once := fst (run (processDocument now1 doc) this) in
  let twice := fst (run (processDocument now2 doc) once) in
  totalDocuments (stats_of twice) = totalDocuments (stats_of this) + 2
  /\ totalChunks (stats_of twice) = totalChunks (stats_of once)
  /\ List.map fst (vectorStore twice) = List.map fst (vectorStore once).
Proof.
  intros Hink once twice. subst twice once.
  rewrite !processDocument_ink by exact Hink. cbn [fst].
  assert (Hkeys : List.map fst (vectorStore (record_document now2 doc
                                               (record_document now1 doc this)))
                  = List.map fst (vectorStore (record_document now1 doc this))).
  { unfold record_document at 1. cbn [vectorStore].
    apply addToVectorStore_keys_present. intros c Hc.
    unfold record_document. cbn [vectorStore].
    set (md1 := {| fileName := in_fileName doc; fileType := extension (in_fileName doc);
                   processedAt := now1 |}).
    set (md2 := {| fileName := in_fileName doc; fileType := extension (in_fileName doc);
                   processedAt := now2 |}) in *.
    assert (Hid : id c ∈ List.map id
                    (createChunks (in_content doc) md1 default_chunkSize default_overlap)).
    { rewrite <- (createChunks_ids (in_content doc) md1 md2) by reflexivity.
      apply list_elem_of_In, in_map, list_elem_of_In, Hc. }
    apply list_elem_of_In, in_map_iff in Hid. destruct Hid as (c1 & Hid & Hc1).
    rewrite <- Hid. apply addToVectorStore_ids_present. now apply list_elem_of_In. }
  split; [|split; [|exact Hkeys]].
  - unfold stats_of, record_document. cbn [totalDocuments documents].
    rewrite !length_app. simpl. lia.
  - unfold stats_of. cbn [totalChunks].
    rewrite <- (length_map fst), Hkeys. apply length_map.
Qed.

Lemma reingesting_double_counts_witness :
  has_ink (in_content Sample.policy) = true
  /\ totalDocuments
       (stats_of (fst (run (processDocument "t2" Sample.policy)
                         (fst (run (processDocument "t1" Sample.policy) new)))))
     = totalDocuments (stats_of new) + 2.
Proof.
  assert (Hink : has_ink (in_content Sample.policy) = true) by reflexivity.
  split; [exact Hink|].
  apply (reingesting_double_counts "t1" "t2" Sample.policy new Hink).
Defined.

Lemma record_document_bound (now : string) (doc : Doc) (this : State) :
  exists d,
    List.length (vectorStore (record_document now doc this))
    <= List.length (vectorStore this) + d
    /\ list_sum (List.map doc_chunks (documents (record_document now doc this)))
       = list_sum (List.map doc_chunks (documents this)) + d.
Proof.
  eexists. unfold record_document. cbn [vectorStore documents]. split.
  - apply addToVectorStore_length_le.
  - rewrite map_app, list_sum_app. simpl. lia.
Qed.

Lemma ingest_chunks_bound (w : World) (docs : list Doc) (this : State) :
  List.length (vectorStore (ingest w docs this))
  + list_sum (List.map doc_chunks (documents this))
  <= List.length (vectorStore this)
     + list_sum (List.map doc_chunks (documents (ingest w docs this))).
Proof.
  unfold ingest. revert this. induction docs as [|doc docs IH]; intros this; [simpl; lia|].
  cbn [fold_left].
  destruct (record_document_bound (date_now w (in_fileName doc)) doc this)
    as (d & Hlen & Hsum).
  specialize (IH (record_document (date_now w (in_fileName doc)) doc this)).
  lia.
Qed.

(** X17. After a batch of assets, the total number of chunks never exceeds
    the sum of the chunk counts reported per document; it is smaller when
    two documents of the batch produce the same chunk id. *)
Theorem total_chunks_bounded (w : World) (this : State) :
  isInitialized this = false ->
  exists stats,
    snd (run (initialize w) this) = Normal stats
    /\ totalDocuments stats = List.length (stat_documents stats)
    /\ totalChunks stats <= list_sum (List.map stat_chunks (stat_documents stats)).
Proof.
  intros Hfresh. rewrite initialize_spec by exact Hfresh. eexists.
  split; [reflexivity|]. cbn [stats_of totalDocuments totalChunks stat_documents
                              set_initialized vectorStore documents].
  split; [now rewrite length_map|].
  rewrite map_map. cbn [stat_chunks].
  pose proof (ingest_chunks_bound w (surviving w) (cleared this)) as H.
  simpl in H. rewrite Nat.add_0_r in H. exact H.
Qed.

Lemma total_chunks_bounded_witness :
  isInitialized new = false
  /\ exists stats,
       snd (run (initialize Sample.text_fails) new) = Normal stats
       /\ totalChunks stats <= list_sum (List.map stat_chunks (stat_documents stats)).
Proof.
  split; [reflexivity|].
  destruct (total_chunks_bounded Sample.text_fails new eq_refl) as (stats & H1 & _ & H3).
  exists stats. split; [exact H1 | exact H3].
Defined.

End DocumentStats.

(** ** Initialising and uploading *)

Section InitialiseAndUpload.
Import Js Env DocumentProcessor Reach Batch.

Lemma initialize_sets_flag (w : World) (this : State) :
  isInitialized (fst (run (initialize w) this)) = true.
Proof.
  destruct (initialize_total w this) as (this' & Hrun & Heq).
  rewrite Hrun. cbn [fst]. rewrite Heq.
  destruct (isInitialized this) eqn:E; [exact E | reflexivity].
Qed.

(** X18. The assets are loaded once: after a first [initialize], in any
    world and from any state, a later [initialize] leaves the engine as it
    is and returns its current statistics, even if the assets have changed
    in the meantime. *)
Theorem initialize_runs_once (w1 w2 : World) (this : State) :
  let ready := fst (run (initialize w1) this) in
  run (initialize w2) ready = (ready, Normal (stats_of ready)).
Proof.
  intros ready. pose proof (initialize_sets_flag w1 this) as Hflag. fold ready in Hflag.
  destruct (initialize_total w2 ready) as (this' & Hrun & Heq).
  rewrite Hflag in Heq. now subst this'.
Qed.

Lemma ingest_flag (w : World) (docs : list Doc) (this : State) :
  isInitialized (ingest w docs this) = isInitialized this.
Proof.
  unfold ingest. revert this. induction docs as [|d docs IH]; intros this; [reflexivity|].
  cbn [fold_left]. now rewrite IH.
Qed.

(** X19. [initialize] starts from an empty index: on an engine that was
    never initialised, the documents uploaded before are dropped, and the
    outcome is that of [initialize] on a new engine. Documents uploaded
    after it are added to those of the assets. *)
Theorem initialize_drops_earlier_uploads (w : World) (files : list (string * File)) :
  run (initialize w) (fst (run (processUploadedFiles w files) new))
  = run (initialize w) new
  /\ List.map doc_fileName
       (documents
          (fst (run (processUploadedFiles w files) (fst (run (initialize w) new)))))
     = List.map in_fileName (surviving w)
       ++ List.map in_fileName (flat_map kept_upload files).
Proof.
  split.
  - rewrite processUploadedFiles_spec. cbn [fst].
    rewrite !initialize_spec by (rewrite ?ingest_flag; reflexivity).
    unfold cleared. now rewrite ingest_flag.
  - rewrite initialize_spec by reflexivity. cbn [fst].
    rewrite processUploadedFiles_spec. cbn [fst].
    rewrite ingest_documents. cbn [set_initialized documents].
    now rewrite ingest_documents.
Qed.

(** X20. When the manifest cannot be used (the request throws or is
    refused, the body is no JSON, or the JSON is no array), [initialize]
    does not fail: it leaves an initialised engine that is empty, with
    statistics 0 and 0, whatever the engine held before. *)
Theorem unusable_manifest_gives_empty_engine (w : World) (this : State) :
  isInitialized this = false ->
  ((exists e, fetch_manifest w = Throw e)
   \/ (exists response, fetch_manifest w = Normal response
        /\ (manifest_ok response = false
            \/ (exists e, manifest_json response = Throw e)
            \/ manifest_json response = Normal JsonOther))) ->
  run (initialize w) this
  = ({| vectorStore := []; documents := []; isInitialized := true |},
     Normal {| totalDocuments := 0; totalChunks := 0; stat_documents := [] |}).
Proof.
  intros Hfresh Hbad.
  assert (Hnone : surviving w = []).
  { unfold surviving, discovered.
    destruct Hbad as [[e ->]|(response & -> & [->|[[e He]|He]])]; [reflexivity ..| |].
    - rewrite He. now destruct (manifest_ok response).
    - rewrite He. now destruct (manifest_ok response). }
  rewrite initialize_spec by exact Hfresh. rewrite Hnone. reflexivity.
Qed.

Lemma unusable_manifest_gives_empty_engine_witness :
  isInitialized (fst (run (processDocument "t" Sample.policy) new)) = false
  /\ (exists e, fetch_manifest
                  {| fetch_manifest := Throw (ErrorObj "offline");
                     fetch_asset := fun _ => Sample.body Sample.notes_file;
                     date_now := fun _ => "t" |} = Throw e)
  /\ snd (run (initialize
                 {| fetch_manifest := Throw (ErrorObj "offline");
                    fetch_asset := fun _ => Sample.body Sample.notes_file;
                    date_now := fun _ => "t" |})
            (fst (run (processDocument "t" Sample.policy) new)))
     = Normal {| totalDocuments := 0; totalChunks := 0; stat_documents := [] |}.
Proof.
  assert (H1 : isInitialized (fst (run (processDocument "t" Sample.policy) new)) = false)
    by reflexivity.
  split; [exact H1|]. split; [now exists (ErrorObj "offline")|].
  rewrite (unusable_manifest_gives_empty_engine _ _ H1); [reflexivity|].
  left. now exists (ErrorObj "offline").
Defined.

End InitialiseAndUpload.

(** ** The RAG service *)

Section ServiceFacts.
Import Js Env Batch RAGQueries.

(** What [initialize] of the service does, from any state. *)
Lemma service_initialize_spec (w : World) (s : RAGService.State) :
  run (RAGService.initialize w) s
  = if RAGService.isInitialized s then (s, Normal (RAGService.stats s))
    else
      let dp := fst (run (DocumentProcessor.initialize w)
                       (RAGService.documentProcessor s)) in
      ({| RAGService.documentProcessor := dp;
          RAGService.isInitialized := true;
          RAGService.stats := Some (DocumentProcessor.stats_of dp) |},
       Normal (Some (DocumentProcessor.stats_of dp))).
Proof.
  unfold RAGService.initialize. rewrite run_bind. cbn [get run].
  destruct (RAGService.isInitialized s) eqn:E; [reflexivity|].
  rewrite run_try_catch, run_bind.
  unfold RAGService.on_processor, zoom. cbn [run].
  destruct (initialize_total w (RAGService.documentProcessor s)) as (dp & Hrun & _).
  rewrite Hrun. reflexivity.
Qed.

Lemma service_search_spec (w : World) (query : string) (topK : Z)
    (s : RAGService.State) :
  run (RAGService.searchDocuments w query topK) s
  = let s' := if RAGService.isInitialized s then s
              else fst (run (RAGService.initialize w) s) in
    (s', Normal (List.map RAGService.to_result
                   (DocumentProcessor.searchChunks
                      (DocumentProcessor.vectorStore (RAGService.documentProcessor s'))
                      query topK))).
Proof.
  unfold RAGService.searchDocuments. rewrite run_bind. cbn [get run].
  rewrite run_bind.
  destruct (RAGService.isInitialized s) eqn:E; cbn [negb]; [reflexivity|].
  rewrite run_bind, service_initialize_spec, E. reflexivity.
Qed.

(** X21. A search through the service never throws, from any state and in
    any world; it leaves the service initialised; and on a service that is
    already initialised it changes nothing, so that the assets are not
    fetched again. *)
Theorem service_search_is_safe (w : World) (query : string) (topK : Z)
    (s : RAGService.State) :
  exists s' results,
    run (RAGService.searchDocuments w query topK) s = (s', Normal results)
    /\ RAGService.isInitialized s' = true
    /\ (RAGService.isInitialized s = true -> s' = s)
    /\ results
       = List.map RAGService.to_result
           (DocumentProcessor.searchChunks
              (DocumentProcessor.vectorStore (RAGService.documentProcessor s'))
              query topK).
Proof.
  rewrite service_search_spec. cbv zeta. do 2 eexists.
  split; [reflexivity|]. split; [|split; [|reflexivity]].
  - destruct (RAGService.isInitialized s) eqn:E; [exact E|].
    rewrite service_initialize_spec, E. reflexivity.
  - intros ->. reflexivity.
Qed.

(** X22. Every result of a search through the service cites its chunk: the
    source text is the file name and the page of the result's own metadata,
    in the form "<fileName> (Page <pageNum>)", and the relevance is
    positive and at most 1; with [topK >= 0] there are at most [topK]
    results. *)
Theorem results_cite_their_chunk (w : World) (query : string) (topK : Z)
    (s : RAGService.State) (results : list RAGService.Result) :
  snd (run (RAGService.searchDocuments w query topK) s) = Normal results ->
  (forall r, r ∈ results ->
     RAGService.source r
     = RAGService.fileName (RAGService.metadata r) +:+ " (Page "
       +:+ show_nat (RAGService.pageNum (RAGService.metadata r)) +:+ ")"
     /\ (0 < RAGService.relevance r)%Q /\ (RAGService.relevance r <= 1)%Q)
  /\ ((0 <= topK)%Z -> (Z.of_nat (List.length results) <= topK)%Z).
Proof.
  rewrite service_search_spec. cbv zeta. cbn [snd]. intros H. injection H as <-.
  split.
  - intros r Hr. apply list_elem_of_In, in_map_iff in Hr.
    destruct Hr as (x & <- & Hx). apply list_elem_of_In in Hx.
    apply slice_prefix_elem, ranked_elem in Hx.
    destruct Hx as (kv & _ & Hpos & ->). cbn.
    split; [reflexivity|]. split; [exact Hpos | apply relevance_range].
  - intros Hk. rewrite length_map, searchChunks_take, length_take by exact Hk. lia.
Qed.

Lemma results_cite_their_chunk_witness :
  exists results,
    snd (run (RAGService.searchDocuments Sample.text_fails "hello" 5) RAGService.new)
    = Normal results
    /\ ((0 <= 5)%Z -> (Z.of_nat (List.length results) <= 5)%Z).
Proof.
  eexists.
  assert (H : snd (run (RAGService.searchDocuments Sample.text_fails "hello" 5)
                     RAGService.new) = Normal _)
    by (rewrite service_search_spec; reflexivity).
  split; [exact H|].
  apply (results_cite_their_chunk Sample.text_fails "hello" 5 RAGService.new _ H).
Defined.

Lemma service_state_inv (s : RAGService.State) :
  service_state s ->
  if RAGService.isInitialized s
  then RAGService.stats s
       = Some (DocumentProcessor.stats_of (RAGService.documentProcessor s))
  else s = RAGService.new.
Proof.
  induction 1 as [|w s _ IH|w query topK s _ IH]; [reflexivity| |].
  - rewrite service_initialize_spec.
    destruct (RAGService.isInitialized s) eqn:E; cbn [fst]; [now rewrite E | reflexivity].
  - rewrite service_search_spec. cbv zeta. cbn [fst].
    destruct (RAGService.isInitialized s) eqn:E; [now rewrite E|].
    rewrite service_initialize_spec, E. reflexivity.
Qed.

(** X23. In every state of the singleton service, the statistics it has
    cached are those of its document processor or, before the first
    initialisation, zeros; and [isReady] never throws (the [stats] it reads
    are never [null] once the service is initialised): it tells whether the
    service is initialised with at least one chunk in the index. *)
Theorem service_stats_are_current (null_read : Thrown) (s : RAGService.State) :
  service_state s ->
  getStats s
  = (if RAGService.isInitialized s
     then DocumentProcessor.stats_of (RAGService.documentProcessor s)
     else {| DocumentProcessor.totalDocuments := 0;
             DocumentProcessor.totalChunks := 0;
             DocumentProcessor.stat_documents := [] |})
  /\ isReady null_read s
     = Normal (RAGService.isInitialized s
               && (0 <? List.length
                          (DocumentProcessor.vectorStore
                             (RAGService.documentProcessor s)))%nat).
Proof.
  intros Hs. apply service_state_inv in Hs. unfold getStats, isReady.
  destruct (RAGService.isInitialized s); [now rewrite Hs | now subst s].
Qed.

Lemma service_stats_are_current_witness :
  service_state (fst (run (RAGService.searchDocuments Sample.text_fails "hello" 5)
                        RAGService.new))
  /\ isReady (ErrorObj "null")
       (fst (run (RAGService.searchDocuments Sample.text_fails "hello" 5)
               RAGService.new))
     = Normal true.
Proof.
  assert (Hs : service_state
                 (fst (run (RAGService.searchDocuments Sample.text_fails "hello" 5)
                         RAGService.new)))
    by apply service_search, service_new.
  split; [exact Hs|].
  destruct (service_stats_are_current (ErrorObj "null") _ Hs) as [_ Hready].
  rewrite Hready. vm_compute. reflexivity.
Defined.

End ServiceFacts.

(** ** The answers of the tool *)

Section ToolAnswers.
Import Js Env Batch.

Lemma str_take_length (n : nat) (s : string) :
  String.length (str_take n s) = Nat.min n (String.length s).
Proof.
  revert s. induction n as [|n IH]; intros s; [reflexivity|].
  destruct s as [|c r]; [reflexivity|]. simpl. now rewrite IH.
Qed.

Lemma truncate_length (limit : nat) (text : string) :
  String.length (Tool.truncate limit text) <= limit + 3
  /\ (String.length text <= limit -> Tool.truncate limit text = text).
Proof.
  unfold Tool.truncate. destruct (limit <? String.length text)%nat eqn:E.
  - apply Nat.ltb_lt in E. split; [|lia].
    rewrite str_app_length, str_take_length.
    change (String.length "...") with 3. lia.
  - apply Nat.ltb_ge in E. split; [lia | reflexivity].
Qed.

Lemma format_from_length (index : nat) (results : list RAGService.Result) :
  List.length (Tool.format_from index results) = List.length results.
Proof.
  revert index. induction results as [|r l IH]; intros index; [reflexivity|].
  simpl. now rewrite IH.
Qed.

(** X24. A [success] answer of the tool is bounded: whatever the search
    returns, the summary has at most 403 characters and the document
    content at most 2003, the two are the same text when it has at most 400
    characters, the number of results announced is the number of sources
    and is at least 1, and the query is echoed. *)
Theorem success_answer_is_bounded {S : Type}
    (search : string -> Z -> M S (list RAGService.Result))
    (query : string) (top_k : option Z) (s : S)
    (message query' : string) (total : nat) (document_content : string)
    (sources : list string) (summary : string) :
  snd (run (Tool.handler search query top_k) s)
  = Normal (Tool.Success message query' total document_content sources summary) ->
  String.length summary <= 403
  /\ String.length document_content <= 2003
  /\ (String.length document_content <= 400 -> summary = document_content)
  /\ total = List.length sources
  /\ 1 <= total
  /\ query' = query.
Proof.
  rewrite handler_run. cbn [snd].
  destruct (snd (run (search query (default 5%Z top_k)) s)) as [[|x l]|e];
    intros H; [discriminate H | | discriminate H].
  pose (text := join (Tool.newline +:+ Tool.newline) (Tool.format_from 0 (x :: l))).
  change (Boundary.answer query (Normal (x :: l)))
    with (Tool.Success
            ("Found " +:+ show_nat (List.length (x :: l))
             +:+ " relevant document chunks for your query.")
            query (List.length (x :: l)) (Tool.truncate 2000 text)
            (List.map RAGService.source (x :: l)) (Tool.truncate 400 text)) in H.
  injection H as _ <- <- <- <- <-.
  destruct (truncate_length 400 text) as [H400 Hid400].
  destruct (truncate_length 2000 text) as [H2000 Hid2000].
  split; [exact H400|]. split; [exact H2000|]. split; [|split; [|split]].
  - intros Hshort.
    destruct (Nat.le_gt_cases (String.length text) 2000) as [Hle|Hgt].
    + rewrite (Hid2000 Hle) in Hshort |- *. now apply Hid400.
    + exfalso. unfold Tool.truncate in Hshort.
      rewrite (proj2 (Nat.ltb_lt _ _) Hgt) in Hshort.
      rewrite str_app_length, str_take_length in Hshort.
      change (String.length "...") with 3 in Hshort. lia.
  - simpl. now rewrite length_map.
  - simpl. lia.
  - reflexivity.
Qed.

Lemma success_answer_is_bounded_witness :
  exists message total document_content sources summary,
    snd (run (Tool.handler (RAGService.searchDocuments Sample.text_fails) "hello" None)
           RAGService.new)
    = Normal (Tool.Success message "hello" total document_content sources summary)
    /\ String.length summary <= 403.
Proof.
  do 5 eexists.
  assert (H : snd (run (Tool.handler (RAGService.searchDocuments Sample.text_fails)
                          "hello" None) RAGService.new)
              = Normal (Tool.Success _ "hello" _ _ _ _))
    by (vm_compute; reflexivity).
  split; [exact H|].
  apply (success_answer_is_bounded _ _ _ _ _ _ _ _ _ _ H).
Defined.

Lemma answer_total (query : string) (results : list RAGService.Result)
    (message query' : string) (total : nat) (document_content : string)
    (sources : list string) (summary : string) :
  Boundary.answer query (Normal results)
  = Tool.Success message query' total document_content sources summary ->
  total = List.length results /\ 1 <= total.
Proof.
  destruct results as [|x l]; intros H; [discriminate H|].
  cbn [Boundary.answer] in H. injection H as _ _ <- _ _ _.
  split; [reflexivity | simpl; lia].
Qed.

(** X25. On the service of the console, the tool never answers [error] for
    a query that is a string: the search cannot throw. When it answers
    [success] with a [top_k] that is not negative (5 when it is left out),
    it announces between 1 and [top_k] results. *)
Theorem tool_respects_top_k (w : World) (query : string) (top_k : option Z)
    (s : RAGService.State) :
  exists r,
    snd (run (Tool.search_documents w query top_k) s) = Normal r
    /\ Tool.status r <> "error"
    /\ (forall message query' total document_content sources summary,
          r = Tool.Success message query' total document_content sources summary ->
          (0 <= default 5 top_k)%Z ->
          1 <= total /\ (Z.of_nat total <= default 5 top_k)%Z).
Proof.
  unfold Tool.search_documents. rewrite handler_run. cbn [snd].
  rewrite service_search_spec. cbv zeta. cbn [snd].
  set (found := DocumentProcessor.searchChunks _ query (default 5%Z top_k)).
  eexists. split; [reflexivity|].
  assert (Hlen : (0 <= default 5 top_k)%Z ->
                 (Z.of_nat (List.length found) <= default 5 top_k)%Z).
  { intros Hk. unfold found. rewrite searchChunks_take, length_take by exact Hk. lia. }
  split.
  - destruct (List.map RAGService.to_result found); discriminate.
  - intros message query' total dc sources summary H Hk.
    apply answer_total in H. destruct H as [-> Hone].
    split; [exact Hone|]. rewrite length_map. now apply Hlen.
Qed.

End ToolAnswers.

(** ** The uploader and the extractor *)

Section UploaderFacts.
Import Js Env DocumentProcessor Batch DocumentUploader.

(** X26. The uploader and the extractor agree on the supported types: for
    a name the uploader refuses, the extraction gives no text, whatever the
    file; for a name it accepts, the extraction gives a text unless the file
    is a plain-text file whose read throws. *)
Theorem uploader_accepts_what_is_extracted (name : string) (file : File) :
  (accepted name = false -> extractTextFromFile file name = Normal None)
  /\ (accepted name = true ->
      (extractTextFromFile file name = Normal None
       <-> toLowerCase (extension name) = "txt" /\ exists e, file_text file = Throw e)).
Proof.
  rewrite extractTextFromFile_spec. unfold accepted, extraction.
  set (t := toLowerCase (extension name)).
  destruct (String.eqb_spec t "pdf") as [Hp|Hp];
    [|destruct (String.eqb_spec t "docx") as [Hx|Hx];
      [|destruct (String.eqb_spec t "doc") as [Hd|Hd];
        [|destruct (String.eqb_spec t "txt") as [Ht|Ht]]]]; cbn [orb].
  - split; [intros H; apply bool_decide_eq_false_1 in H; exfalso; apply H; rewrite Hp; left|].
    intros _. split; [discriminate|]. intros [H _]. rewrite Hp in H. discriminate.
  - split; [intros H; apply bool_decide_eq_false_1 in H; exfalso; apply H; rewrite Hx;
            right; left|].
    intros _. split; [destruct (file_word file); discriminate|].
    intros [H _]. rewrite Hx in H. discriminate.
  - split; [intros H; apply bool_decide_eq_false_1 in H; exfalso; apply H; rewrite Hd;
            right; right; left|].
    intros _. split; [destruct (file_word file); discriminate|].
    intros [H _]. rewrite Hd in H. discriminate.
  - split; [intros H; apply bool_decide_eq_false_1 in H; exfalso; apply H; rewrite Ht;
            right; right; right; left|].
    intros _. destruct (file_text file) as [text|e].
    + split; [discriminate|]. intros [_ [e He]]. discriminate.
    + split; [intros _; split; [exact Ht | now exists e] | reflexivity].
  - split; [reflexivity|]. intros H. apply bool_decide_eq_true_1 in H. exfalso.
    repeat (apply elem_of_cons in H; destruct H as [H|H]; [congruence|]).
    inversion H.
Qed.

(** X27. Processing the pending uploads: once the module is imported, the
    processing itself never fails, so the statistics always reach the
    callback, and the alert is shown only if the callback throws. The
    statistics are those of a new engine: they list exactly the files of
    the pending batch that have a text, whatever was processed before. *)
Theorem processFiles_reports_the_batch (w : World)
    (onDocumentsProcessed : Stats -> Completion unit)
    (pending : list (string * File)) :
  pending <> [] ->
  exists stats,
    reported (processFiles w (Normal tt) onDocumentsProcessed pending) = Some stats
    /\ List.map stat_fileName (stat_documents stats)
       = List.map in_fileName (flat_map kept_upload pending)
    /\ (alerted (processFiles w (Normal tt) onDocumentsProcessed pending) = true
        <-> exists e, onDocumentsProcessed stats = Throw e)
    /\ (alerted (processFiles w (Normal tt) onDocumentsProcessed pending) = false ->
        pending_after (processFiles w (Normal tt) onDocumentsProcessed pending) = []).
Proof.
  intros Hne. unfold processFiles. rewrite processUploadedFiles_spec. cbn [snd].
  destruct pending as [|nf l]; [congruence|]. cbn [List.length Nat.eqb].
  exists (stats_of (ingest w (flat_map kept_upload (nf :: l)) new)).
  assert (Hnames : List.map stat_fileName
                     (stat_documents (stats_of (ingest w (flat_map kept_upload (nf :: l)) new)))
                   = List.map in_fileName (flat_map kept_upload (nf :: l))).
  { cbn [stats_of stat_documents]. rewrite map_map.
    change (fun x => stat_fileName {| stat_fileName := doc_fileName x;
                                      stat_chunks := doc_chunks x |})
      with doc_fileName.
    now rewrite ingest_documents. }
  destruct (onDocumentsProcessed _) as [u|e] eqn:E; cbn [reported alerted pending_after].
  - split; [reflexivity|]. split; [exact Hnames|]. split; [|reflexivity].
    split; [discriminate | intros [e He]; discriminate].
  - split; [reflexivity|]. split; [exact Hnames|]. split; [|discriminate].
    split; [intros _; now exists e | reflexivity].
Qed.

Lemma processFiles_reports_the_batch_witness :
  [("notes.txt", Sample.notes_file)] <> []
  /\ exists stats,
       reported (processFiles Sample.no_assets (Normal tt) (fun _ => Normal tt)
                   [("notes.txt", Sample.notes_file)]) = Some stats
       /\ List.map stat_fileName (stat_documents stats)
          = List.map in_fileName (flat_map kept_upload [("notes.txt", Sample.notes_file)]).
Proof.
  assert (Hne : [("notes.txt", Sample.notes_file)] <> []) by discriminate.
  split; [exact Hne|].
  destruct (processFiles_reports_the_batch Sample.no_assets (fun _ => Normal tt)
              [("notes.txt", Sample.notes_file)] Hne) as (stats & H1 & H2 & _).
  exists stats. split; [exact H1 | exact H2].
Defined.

End UploaderFacts.

(** ** The placeholder embedding *)

Section EmbeddingFacts.
Import Js DocumentProcessor.

(** X28. The placeholder embedding of a text has 1536 components whatever
    the text; the words after the 1536th play no part. *)
Theorem embedding_has_fixed_length (text : string) :
  List.length (simpleEmbedding text) = 1536
  /\ forall e, e ∈ simpleEmbedding text -> (0 <= e)%Q.
Proof.
  unfold simpleEmbedding. split.
  - rewrite length_app, length_map, repeat_length.
    pose proof (firstn_le_length 1536
                  (split_runs is_space (toLowerCase text))). lia.
  - intros e He. apply elem_of_app in He. destruct He as [He|He].
    + apply list_elem_of_In, in_map_iff in He. destruct He as (wd & <- & _).
      unfold Qdiv, Qle. simpl. lia.
    + apply list_elem_of_In, repeat_spec in He. subst e. apply Qle_refl.
Qed.

End EmbeddingFacts.

(** ** Chunks and metadata *)

Section ChunksAndMetadata.
Import Js DocumentProcessor Reach Retag.

(** X29. The metadata of a document plays no part in how its text is cut:
    for two metadata (other file name, type or clock reading), [createChunks]
    gives as many chunks, with the same contents, the same page numbers and
    the same chunk numbers; each chunk carries the metadata it was made
    with. *)
Theorem chunking_ignores_metadata (text : string) (md md' : Metadata)
    (chunkSize overlap : Z) :
  List.map content (createChunks text md' chunkSize overlap)
  = List.map content (createChunks text md chunkSize overlap)
  /\ List.map (fun c => (pageNum (metadata c), chunkIndex (metadata c)))
       (createChunks text md' chunkSize overlap)
     = List.map (fun c => (pageNum (metadata c), chunkIndex (metadata c)))
         (createChunks text md chunkSize overlap)
  /\ (forall c, c ∈ createChunks text md' chunkSize overlap -> base (metadata c) = md').
Proof.
  rewrite (createChunks_carry text md md'). rewrite !map_map. repeat split.
  intros c Hc. apply list_elem_of_In, in_map_iff in Hc.
  destruct Hc as (c0 & <- & _). reflexivity.
Qed.

End ChunksAndMetadata.
